(** * Eburon CSR Studio: the realtime audio pipeline of [App.tsx]

    A shallow embedding of the two application variants kept in
    [src/App.tsx] (the basic app, typed by [src/types.ts], and the
    template-based app, typed by the second [types.ts]) together with the
    [Dialer] component's button gating, and the properties of the capture
    pipeline, the playback scheduler, the transcript aggregator and the
    call life cycle.

    Conventions of the embedding:
    - a React state cell or a [useRef] cell is a field of the variant's
      [State] record; a handler is a function on [State];
    - a value a handler reads from its closure (the [callState] or the
      [transcript] of the render that created it) is an explicit [Render]
      argument;
    - a state updater passed to [setTranscript] is applied where it is
      called, in call order;
    - what the browser and the SDK do on request (closing a context,
      stopping a track or a source node, starting a source node) is
      appended to the [trace] of the state;
    - times of the audio clock are rationals;
    - audio samples are IEEE 754 values, [spec_float], with the
      arithmetic of [SpecFloat]. *)

From Stdlib Require Import List Bool Arith ZArith NArith QArith Qminmax Lia.
From Stdlib Require Import String Ascii.
From Stdlib Require Import Floats.SpecFloat.
Import ListNotations.
Open Scope Z_scope.

(** ** JavaScript strings *)

Module JS.

(** A string is its sequence of UTF-16 code units. *)
Definition jsstring := list N.

(** Code units of a literal whose characters are all below U+0100. *)
Definition str (s : string) : jsstring :=
  List.map N_of_ascii (list_ascii_of_string s).

(** ECMAScript [WhiteSpace] and [LineTerminator] code points, the ones
    [String.prototype.trim] strips. *)
Definition isWhiteSpace (c : N) : bool :=
  (   N.eqb c 9 || N.eqb c 10 || N.eqb c 11 || N.eqb c 12 || N.eqb c 13
   || N.eqb c 32 || N.eqb c 160 || N.eqb c 5760
   || (N.leb 8192 c && N.leb c 8202)
   || N.eqb c 8232 || N.eqb c 8233 || N.eqb c 8239 || N.eqb c 8287
   || N.eqb c 12288 || N.eqb c 65279)%bool.

Fixpoint trimStart (s : jsstring) : jsstring :=
  match s with
  | c :: s' => if isWhiteSpace c then trimStart s' else s
  | [] => []
  end.

Definition trimEnd (s : jsstring) : jsstring := rev (trimStart (rev s)).

Definition trim (s : jsstring) : jsstring := trimEnd (trimStart s).

(** Truthiness of a string: every string but the empty one. *)
Definition truthy (s : jsstring) : bool :=
  match s with [] => false | _ :: _ => true end.

End JS.

(** ** The capture pipeline's sample conversion

    [onaudioprocess] reads Float32 samples and stores [x * 32768] into an
    [Int16Array].  Floating-point values are [spec_float]s: zero,
    infinity, NaN, or [S754_finite s m e] of value [(-1)^s * m * 2^e];
    a sample is one in binary32 format, a Number one in binary64 format,
    and the arithmetic is the IEEE 754 arithmetic of [SpecFloat]. *)

Module PCM.

(** The Number 32768, [2^52 * 2^-37]. *)
Definition SF32768 : spec_float := S754_finite false 4503599627370496 (-37).

(** Reading an element of a [Float32Array]: the Number of the same
    value. *)
Definition toNumber (x : spec_float) : spec_float :=
  match x with
  | S754_finite s m e => binary_round 53 1024 s m e
  | _ => x
  end.

(** Storing a Number into a [Float32Array]: rounding to binary32, to
    nearest, ties to even. *)
Definition toFloat32 (x : spec_float) : spec_float :=
  match x with
  | S754_finite s m e => binary_round 24 128 s m e
  | _ => x
  end.

(** [x * y] on Numbers. *)
Definition mul (x y : spec_float) : spec_float := SFmul 53 1024 x y.

(** ECMAScript [truncate] of a finite Number: the magnitude is shifted by
    the exponent (to the right when it is negative), then signed. *)
Definition truncate (x : spec_float) : Z :=
  match x with
  | S754_finite s m e =>
      let a := Z.shiftl (Z.pos m) e in if s then - a else a
  | _ => 0
  end.

(** ECMAScript [ToInt16], the conversion of a store into an
    [Int16Array]: NaN, zeros and infinities give 0; otherwise the
    truncated value modulo 2^16, read as a signed 16-bit integer. *)
Definition ToInt16 (x : spec_float) : Z :=
  match x with
  | S754_finite _ _ _ =>
      let int16bit := Z.land (truncate x) 65535 in
      if 32768 <=? int16bit then int16bit - 65536 else int16bit
  | _ => 0
  end.

(** Basic variant: [int16[i] = inputData[i] * 32768]. *)
Definition sample_basic (x : spec_float) : Z :=
  ToInt16 (mul (toNumber x) SF32768).

(** Template variant:
    [new Int16Array(inputData.map(x => x * 32768))]; [map] on a
    [Float32Array] builds a [Float32Array], whose elements the
    [Int16Array] constructor reads back. *)
Definition sample_template (x : spec_float) : Z :=
  ToInt16 (toNumber (toFloat32 (mul (toNumber x) SF32768))).

Definition onaudioprocess_basic (inputData : list spec_float) : list Z :=
  List.map sample_basic inputData.

Definition onaudioprocess_template (inputData : list spec_float) : list Z :=
  List.map sample_template inputData.

(** The mathematical side: the exact value of a finite sample, truncation
    of a rational toward zero, and reduction into the signed 16-bit
    range. *)
Definition value (x : spec_float) : Q :=
  match x with
  | S754_finite s m e =>
      let n := if s then Z.neg m else Z.pos m in
      if 0 <=? e then inject_Z (n * 2 ^ e)
      else Qmake n (Z.to_pos (2 ^ (- e)))
  | _ => 0%Q
  end.

Definition Qtrunc (q : Q) : Z := Z.quot (Qnum q) (Z.pos (Qden q)).

Definition wrap16 (z : Z) : Z := (z + 32768) mod 65536 - 32768.

Definition saturate16 (z : Z) : Z := Z.max (-32768) (Z.min 32767 z).

(** The samples that are numbers: the zeros and the finite values of
    binary32. *)
Definition is_sample (x : spec_float) : bool :=
  match x with
  | S754_zero _ => true
  | S754_finite _ m e => bounded 24 128 m e
  | _ => false
  end.

(** What the specification asks of one sample. *)
Definition scaled_wrapped (x : spec_float) : Z :=
  wrap16 (Qtrunc (value x * 32768)).

(** The zero bits a binary32 mantissa gets when it is read as a Number,
    and the bits the binary32 rounding of the scaled sample drops. *)
Definition pad (m : positive) : nat := Z.to_nat (53 - Z.pos (digits2_pos m)).

Definition dropped (m : positive) (e : Z) : nat :=
  Z.to_nat (Z.max 29 (-149 - (e - Z.of_nat (pad m) + 15))).

End PCM.

(** ** Types shared by the two variants *)

Import JS.

(** [CallState] of [types.ts]. *)
Inductive CallState := Idle | Connecting | Connected | Ended.

Definition CallState_eqb (a b : CallState) : bool :=
  match a, b with
  | Idle, Idle | Connecting, Connecting
  | Connected, Connected | Ended, Ended => true
  | _, _ => false
  end.

(** Identity of a browser or SDK object (stream, context, node, session). *)
Definition handle := nat.

(** An [AudioBufferSourceNode] with the duration of its [buffer]. *)
Record AudioBufferSourceNode := mkSource {
  node_id : handle;
  buffer_duration : Q
}.

(** Requests a handler makes to objects outside the component. *)
Inductive Effect :=
| SessionClose (session : handle)
| TrackStop (stream : handle)
| NodeDisconnect (node : handle)
| ContextClose (context : handle)
| SourceStart (source : AudioBufferSourceNode) (when : Q)
| SourceStop (source : handle).

(** The fields of a [LiveServerMessage] the handlers read.
    [modelTurnAudio] is [Some d] when
    [serverContent.modelTurn.parts[0].inlineData.data] is a non-empty
    payload, [d] being the duration of the buffer [decodeAudioData]
    builds from it. *)
Record LiveServerMessage := mkMessage {
  inputTranscription : option jsstring;
  outputTranscription : option jsstring;
  turnComplete : bool;
  modelTurnAudio : option Q;
  interrupted : bool
}.

(** How a handler's body ends: normally, or by a [TypeError] raised when a
    ref asserted non-null with [!] is null; either way with the state
    reached so far. *)
Inductive Completion (S : Type) :=
| Normal (s : S)
| Throw (s : S).
Arguments Normal {S} s.
Arguments Throw {S} s.

Definition state_of {S : Type} (c : Completion S) : S :=
  match c with Normal s | Throw s => s end.

Definition completes {S : Type} (c : Completion S) : bool :=
  match c with Normal _ => true | Throw _ => false end.

(** [arr[arr.length - 1]]: the last element, [undefined] on an empty array. *)
Fixpoint last_opt {A : Type} (l : list A) : option A :=
  match l with
  | [] => None
  | [a] => Some a
  | _ :: l' => last_opt l'
  end.

(** The request of [ref.current?.method()], if the ref is set. *)
Definition opt_request (r : option handle) (e : handle -> Effect)
  : list Effect :=
  match r with
  | Some h => [e h]
  | None => []
  end.

(** [set.forEach(source => source.stop())]. *)
Definition stop_all (sources : list AudioBufferSourceNode) : list Effect :=
  List.map (fun s => SourceStop (node_id s)) sources.

(** The [(when, duration)] pairs of the [start] calls of a trace, in
    order. *)
Fixpoint schedule_of (tr : list Effect) : list (Q * Q) :=
  match tr with
  | [] => []
  | SourceStart s t :: tr' => (t, buffer_duration s) :: schedule_of tr'
  | _ :: tr' => schedule_of tr'
  end.

(** ** The basic variant (first [App] of [App.tsx], first [types.ts]) *)

Module Basic.

Inductive Speaker := User | Agent.

Definition Speaker_eqb (a b : Speaker) : bool :=
  match a, b with
  | User, User | Agent, Agent => true
  | _, _ => false
  end.

Record TranscriptEntry := mkEntry {
  speaker : Speaker;
  text : jsstring
}.

(** The callback [endCall] hands to [setTimeout]. *)
Inductive Timer := EndCallTimeout.

Record State := mkState {
  showDialer : bool;  (* useState *)
  callState : CallState;
  transcript : list TranscriptEntry;
  isOrbListening : bool;
  sessionRef : option handle;  (* useRef *)
  inputAudioContextRef : option handle;
  outputAudioContextRef : option handle;
  streamRef : option handle;
  scriptProcessorRef : option handle;
  outputNodeRef : option handle;
  sourcesRef : list AudioBufferSourceNode;
  nextStartTime : Q;
  currentInputTranscriptionRef : jsstring;
  currentOutputTranscriptionRef : jsstring;
  timers : list (Z * Timer);  (* pending setTimeout callbacks *)
  trace : list Effect;  (* requests made to the browser and the SDK *)
  fresh : handle  (* next unused object identity *)
}.

Definition set_showDialer (v : bool) (st : State) : State :=
  mkState v (callState st) (transcript st) (isOrbListening st)
    (sessionRef st) (inputAudioContextRef st) (outputAudioContextRef st)
    (streamRef st) (scriptProcessorRef st) (outputNodeRef st)
    (sourcesRef st) (nextStartTime st) (currentInputTranscriptionRef st)
    (currentOutputTranscriptionRef st) (timers st) (trace st) (fresh st).
Definition set_callState (v : CallState) (st : State) : State :=
  mkState (showDialer st) v (transcript st) (isOrbListening st)
    (sessionRef st) (inputAudioContextRef st) (outputAudioContextRef st)
    (streamRef st) (scriptProcessorRef st) (outputNodeRef st)
    (sourcesRef st) (nextStartTime st) (currentInputTranscriptionRef st)
    (currentOutputTranscriptionRef st) (timers st) (trace st) (fresh st).
Definition set_transcript (v : list TranscriptEntry) (st : State) : State :=
  mkState (showDialer st) (callState st) v (isOrbListening st)
    (sessionRef st) (inputAudioContextRef st) (outputAudioContextRef st)
    (streamRef st) (scriptProcessorRef st) (outputNodeRef st)
    (sourcesRef st) (nextStartTime st) (currentInputTranscriptionRef st)
    (currentOutputTranscriptionRef st) (timers st) (trace st) (fresh st).
Definition set_isOrbListening (v : bool) (st : State) : State :=
  mkState (showDialer st) (callState st) (transcript st) v (sessionRef st)
    (inputAudioContextRef st) (outputAudioContextRef st) (streamRef st)
    (scriptProcessorRef st) (outputNodeRef st) (sourcesRef st)
    (nextStartTime st) (currentInputTranscriptionRef st)
    (currentOutputTranscriptionRef st) (timers st) (trace st) (fresh st).
Definition set_sessionRef (v : option handle) (st : State) : State :=
  mkState (showDialer st) (callState st) (transcript st)
    (isOrbListening st) v (inputAudioContextRef st)
    (outputAudioContextRef st) (streamRef st) (scriptProcessorRef st)
    (outputNodeRef st) (sourcesRef st) (nextStartTime st)
    (currentInputTranscriptionRef st) (currentOutputTranscriptionRef st)
    (timers st) (trace st) (fresh st).
Definition set_inputAudioContextRef (v : option handle) (st : State) : State :=
  mkState (showDialer st) (callState st) (transcript st)
    (isOrbListening st) (sessionRef st) v (outputAudioContextRef st)
    (streamRef st) (scriptProcessorRef st) (outputNodeRef st)
    (sourcesRef st) (nextStartTime st) (currentInputTranscriptionRef st)
    (currentOutputTranscriptionRef st) (timers st) (trace st) (fresh st).
Definition set_outputAudioContextRef (v : option handle) (st : State) : State :=
  mkState (showDialer st) (callState st) (transcript st)
    (isOrbListening st) (sessionRef st) (inputAudioContextRef st) v
    (streamRef st) (scriptProcessorRef st) (outputNodeRef st)
    (sourcesRef st) (nextStartTime st) (currentInputTranscriptionRef st)
    (currentOutputTranscriptionRef st) (timers st) (trace st) (fresh st).
Definition set_streamRef (v : option handle) (st : State) : State :=
  mkState (showDialer st) (callState st) (transcript st)
    (isOrbListening st) (sessionRef st) (inputAudioContextRef st)
    (outputAudioContextRef st) v (scriptProcessorRef st) (outputNodeRef st)
    (sourcesRef st) (nextStartTime st) (currentInputTranscriptionRef st)
    (currentOutputTranscriptionRef st) (timers st) (trace st) (fresh st).
Definition set_scriptProcessorRef (v : option handle) (st : State) : State :=
  mkState (showDialer st) (callState st) (transcript st)
    (isOrbListening st) (sessionRef st) (inputAudioContextRef st)
    (outputAudioContextRef st) (streamRef st) v (outputNodeRef st)
    (sourcesRef st) (nextStartTime st) (currentInputTranscriptionRef st)
    (currentOutputTranscriptionRef st) (timers st) (trace st) (fresh st).
Definition set_outputNodeRef (v : option handle) (st : State) : State :=
  mkState (showDialer st) (callState st) (transcript st)
    (isOrbListening st) (sessionRef st) (inputAudioContextRef st)
    (outputAudioContextRef st) (streamRef st) (scriptProcessorRef st) v
    (sourcesRef st) (nextStartTime st) (currentInputTranscriptionRef st)
    (currentOutputTranscriptionRef st) (timers st) (trace st) (fresh st).
Definition set_sourcesRef (v : list AudioBufferSourceNode) (st : State) : State :=
  mkState (showDialer st) (callState st) (transcript st)
    (isOrbListening st) (sessionRef st) (inputAudioContextRef st)
    (outputAudioContextRef st) (streamRef st) (scriptProcessorRef st)
    (outputNodeRef st) v (nextStartTime st)
    (currentInputTranscriptionRef st) (currentOutputTranscriptionRef st)
    (timers st) (trace st) (fresh st).
Definition set_nextStartTime (v : Q) (st : State) : State :=
  mkState (showDialer st) (callState st) (transcript st)
    (isOrbListening st) (sessionRef st) (inputAudioContextRef st)
    (outputAudioContextRef st) (streamRef st) (scriptProcessorRef st)
    (outputNodeRef st) (sourcesRef st) v (currentInputTranscriptionRef st)
    (currentOutputTranscriptionRef st) (timers st) (trace st) (fresh st).
Definition set_currentInputTranscriptionRef (v : jsstring) (st : State) : State :=
  mkState (showDialer st) (callState st) (transcript st)
    (isOrbListening st) (sessionRef st) (inputAudioContextRef st)
    (outputAudioContextRef st) (streamRef st) (scriptProcessorRef st)
    (outputNodeRef st) (sourcesRef st) (nextStartTime st) v
    (currentOutputTranscriptionRef st) (timers st) (trace st) (fresh st).
Definition set_currentOutputTranscriptionRef (v : jsstring) (st : State) : State :=
  mkState (showDialer st) (callState st) (transcript st)
    (isOrbListening st) (sessionRef st) (inputAudioContextRef st)
    (outputAudioContextRef st) (streamRef st) (scriptProcessorRef st)
    (outputNodeRef st) (sourcesRef st) (nextStartTime st)
    (currentInputTranscriptionRef st) v (timers st) (trace st) (fresh st).
Definition set_timers (v : list (Z * Timer)) (st : State) : State :=
  mkState (showDialer st) (callState st) (transcript st)
    (isOrbListening st) (sessionRef st) (inputAudioContextRef st)
    (outputAudioContextRef st) (streamRef st) (scriptProcessorRef st)
    (outputNodeRef st) (sourcesRef st) (nextStartTime st)
    (currentInputTranscriptionRef st) (currentOutputTranscriptionRef st) v
    (trace st) (fresh st).
Definition set_trace (v : list Effect) (st : State) : State :=
  mkState (showDialer st) (callState st) (transcript st)
    (isOrbListening st) (sessionRef st) (inputAudioContextRef st)
    (outputAudioContextRef st) (streamRef st) (scriptProcessorRef st)
    (outputNodeRef st) (sourcesRef st) (nextStartTime st)
    (currentInputTranscriptionRef st) (currentOutputTranscriptionRef st)
    (timers st) v (fresh st).
Definition set_fresh (v : handle) (st : State) : State :=
  mkState (showDialer st) (callState st) (transcript st)
    (isOrbListening st) (sessionRef st) (inputAudioContextRef st)
    (outputAudioContextRef st) (streamRef st) (scriptProcessorRef st)
    (outputNodeRef st) (sourcesRef st) (nextStartTime st)
    (currentInputTranscriptionRef st) (currentOutputTranscriptionRef st)
    (timers st) (trace st) v.
(** What a function created during a render sees of the React state. *)
Record Render := mkRender { seen_callState : CallState }.

Definition render (st : State) : Render := mkRender (callState st).

Definition emit (es : list Effect) (st : State) : State :=
  set_trace (trace st ++ es) st.

(** [ref.current?.method()]. *)
Definition request (r : option handle) (e : handle -> Effect) (st : State)
  : State :=
  emit (opt_request r e) st.

Definition cleanup (st : State) : State :=
  let st := request (sessionRef st) SessionClose st in
  let st := set_sessionRef None st in
  let st := request (streamRef st) TrackStop st in
  let st := set_streamRef None st in
  let st := request (scriptProcessorRef st) NodeDisconnect st in
  let st := set_scriptProcessorRef None st in
  let st := request (inputAudioContextRef st) ContextClose st in
  let st := set_inputAudioContextRef None st in
  let st := request (outputAudioContextRef st) ContextClose st in
  let st := set_outputAudioContextRef None st in
  let st := emit (stop_all (sourcesRef st)) st in
  set_sourcesRef [] st.

Definition endCall (r : Render) (st : State) : State :=
  if CallState_eqb (seen_callState r) Connected then
    let st := set_callState Ended st in
    let st := cleanup st in
    set_timers (timers st ++ [(1500, EndCallTimeout)]) st
  else st.

Definition runTimer (t : Timer) (st : State) : State :=
  match t with
  | EndCallTimeout =>
      let st := set_callState Idle st in
      let st := set_showDialer false st in
      set_transcript [] st
  end.

(** The oldest pending timeout fires. *)
Definition fireTimer (st : State) : State :=
  match timers st with
  | [] => st
  | (_, t) :: rest => runTimer t (set_timers rest st)
  end.

(** What the environment answers during [startCall]: whether
    [getUserMedia] resolves, whether each [AudioContext] is constructed,
    whether the promise of [ai.live.connect] resolves. *)
Record Setup := mkSetup {
  micGranted : bool;
  inputContextCreated : bool;
  outputContextCreated : bool;
  handshakeDone : bool
}.

Definition alloc (st : State) : handle * State :=
  (fresh st, set_fresh (S (fresh st)) st).

(** The [catch] clause of [startCall]. *)
Definition startCall_catch (st : State) : State :=
  let st := set_callState Idle st in
  set_isOrbListening false st.

Definition startCall (r : Render) (env : Setup) (st : State) : State :=
  if negb (CallState_eqb (seen_callState r) Idle) then st else
  let st := set_callState Connecting st in
  let st := set_transcript [] st in
  let st := set_isOrbListening true st in
  if negb (micGranted env) then startCall_catch st else
  let '(stream, st) := alloc st in
  let st := set_streamRef (Some stream) st in
  if negb (inputContextCreated env) then startCall_catch st else
  let '(ictx, st) := alloc st in
  let st := set_inputAudioContextRef (Some ictx) st in
  if negb (outputContextCreated env) then startCall_catch st else
  let '(octx, st) := alloc st in
  let st := set_outputAudioContextRef (Some octx) st in
  let '(gain, st) := alloc st in
  let st := set_outputNodeRef (Some gain) st in
  let st := set_nextStartTime 0%Q st in
  if negb (handshakeDone env) then startCall_catch st else
  let '(session, st) := alloc st in
  set_sessionRef (Some session) st.

Definition onopen (st : State) : Completion State :=
  let st := set_callState Connected st in
  match inputAudioContextRef st with
  | None => Throw st
  | Some _ =>
      let '(source, st) := alloc st in
      let '(scriptProcessor, st) := alloc st in
      Normal (set_scriptProcessorRef (Some scriptProcessor) st)
  end.

(** The updater given to [setTranscript] by a partial transcription of
    speaker [sp], the accumulator being [acc]. *)
Definition upsert (sp : Speaker) (acc : jsstring)
  (prev : list TranscriptEntry) : list TranscriptEntry :=
  match last_opt prev with
  | Some last =>
      if Speaker_eqb (speaker last) sp
      then removelast prev ++ [mkEntry (speaker last) acc]
      else prev ++ [mkEntry sp acc]
  | None => prev ++ [mkEntry sp acc]
  end.

Definition handleTranscription (m : LiveServerMessage) (st : State)
  : State :=
  match inputTranscription m with
  | Some t =>
      let st :=
        set_currentInputTranscriptionRef
          (currentInputTranscriptionRef st ++ t) st in
      set_transcript
        (upsert User (currentInputTranscriptionRef st) (transcript st)) st
  | None =>
      match outputTranscription m with
      | Some t =>
          let st :=
            set_currentOutputTranscriptionRef
              (currentOutputTranscriptionRef st ++ t) st in
          set_transcript
            (upsert Agent (currentOutputTranscriptionRef st) (transcript st))
            st
      | None => st
      end
  end.

Definition handleTurnComplete (m : LiveServerMessage) (st : State) : State :=
  if turnComplete m then
    let st := set_currentInputTranscriptionRef [] st in
    set_currentOutputTranscriptionRef [] st
  else st.

(** The [if (base64Audio)] block; [now] is
    [outputAudioContextRef.current.currentTime]. *)
Definition handleAudio (now : Q) (m : LiveServerMessage) (st : State)
  : Completion State :=
  match modelTurnAudio m with
  | None => Normal st
  | Some duration =>
      match outputAudioContextRef st with
      | None => Throw st
      | Some _ =>
          let st := set_nextStartTime (Qmax (nextStartTime st) now) st in
          let '(id, st) := alloc st in
          let source := mkSource id duration in
          match outputNodeRef st with
          | None => Throw st
          | Some _ =>
              let st := emit [SourceStart source (nextStartTime st)] st in
              let st :=
                set_nextStartTime (nextStartTime st + duration)%Q st in
              Normal (set_sourcesRef (sourcesRef st ++ [source]) st)
          end
      end
  end.

Definition handleInterrupted (m : LiveServerMessage) (st : State) : State :=
  if interrupted m then
    let st := emit (stop_all (sourcesRef st)) st in
    let st := set_sourcesRef [] st in
    set_nextStartTime 0%Q st
  else st.

Definition onmessage (now : Q) (m : LiveServerMessage) (st : State)
  : Completion State :=
  let st := handleTranscription m st in
  let st := handleTurnComplete m st in
  match handleAudio now m st with
  | Throw st => Throw st
  | Normal st => Normal (handleInterrupted m st)
  end.

(** The ['ended'] listener of a source node. *)
Definition onended (id : handle) (st : State) : State :=
  set_sourcesRef
    (List.filter (fun s => negb (Nat.eqb (node_id s) id)) (sourcesRef st)) st.

(** [onerror] and [onclose] are created inside [startCall]; [r] is the
    render in which that [startCall] was created. *)
Definition onerror (r : Render) (st : State) : State :=
  let st := set_isOrbListening false st in
  endCall r st.

Definition onclose (st : State) : State :=
  let st := set_isOrbListening false st in
  cleanup st.

(** Messages handled one after the other, each with the clock reading of
    its handler; a handler that throws leaves the state it reached. *)
Fixpoint run (evs : list (Q * LiveServerMessage)) (st : State) : State :=
  match evs with
  | [] => st
  | (now, m) :: evs' => run evs' (state_of (onmessage now m st))
  end.

(** [Dialer]: the End button is [disabled={callState !== Connected}], the
    Call button is disabled while Connected or Connecting. *)
Definition endBtn_disabled (cs : CallState) : bool :=
  negb (CallState_eqb cs Connected).

Definition callBtn_disabled (cs : CallState) : bool :=
  (CallState_eqb cs Connected || CallState_eqb cs Connecting)%bool.

Definition clickEnd (st : State) : State :=
  if endBtn_disabled (callState st) then st else endCall (render st) st.

(** The state of a freshly mounted component. *)
Definition initial : State :=
  mkState false Idle [] false None None None None None None [] 0%Q [] []
    [] [] O.

(** The refs [handleAudio] asserts non-null are set. *)
Definition playback_ready (st : State) : bool :=
  match outputAudioContextRef st, outputNodeRef st with
  | Some _, Some _ => true
  | _, _ => false
  end.

(** The text a message contributes to speaker [sp]; an output
    transcription is read only when the message has no input
    transcription. *)
Definition partial_of (sp : Speaker) (m : LiveServerMessage)
  : option jsstring :=
  match sp with
  | User => inputTranscription m
  | Agent =>
      match inputTranscription m with
      | Some _ => None
      | None => outputTranscription m
      end
  end.

Definition accumulator (sp : Speaker) (st : State) : jsstring :=
  match sp with
  | User => currentInputTranscriptionRef st
  | Agent => currentOutputTranscriptionRef st
  end.

Definition last_speaker_is (sp : Speaker) (t : list TranscriptEntry) : bool :=
  match last_opt t with
  | Some e => Speaker_eqb (speaker e) sp
  | None => false
  end.

(** What [cleanup] acts on: the five refs it clears, the live set, and
    the requests made so far. *)
Definition resources (st : State) :=
  (sessionRef st, streamRef st, scriptProcessorRef st,
   inputAudioContextRef st, outputAudioContextRef st,
   sourcesRef st, trace st).

(** The requests of a teardown, in the order [cleanup] makes them. *)
Definition released (st : State) : list Effect :=
  opt_request (sessionRef st) SessionClose
  ++ opt_request (streamRef st) TrackStop
  ++ opt_request (scriptProcessorRef st) NodeDisconnect
  ++ opt_request (inputAudioContextRef st) ContextClose
  ++ opt_request (outputAudioContextRef st) ContextClose
  ++ stop_all (sourcesRef st).

(** A call set up without failure and opened. *)
Definition all_ok : Setup := mkSetup true true true true.

Definition connected : State :=
  state_of (onopen (startCall (render initial) all_ok initial)).

(** The cleanup function returned by the mount effect,
    [useEffect(() => { return () => cleanup(); }, [])]. *)
Definition unmount (st : State) : State := cleanup st.

(** The "Start Live Conversation" button, rendered while [!showDialer]. *)
Definition showLiveConversation (st : State) : State :=
  if showDialer st then st else set_showDialer true st.

(** The Dialer's Call button; the Dialer is rendered while [showDialer]. *)
Definition clickCall (env : Setup) (st : State) : State :=
  if (negb (showDialer st) || callBtn_disabled (callState st))%bool
  then st else startCall (render st) env st.

(** What can happen to the mounted component: a click, a callback of the
    session ([r] being the render whose [startCall] created the
    callbacks), the end of a source node, a timeout, the unmount. *)
Inductive Event :=
| EvShowDialer
| EvClickCall (env : Setup)
| EvOpen
| EvMessage (now : Q) (m : LiveServerMessage)
| EvSourceEnded (id : handle)
| EvError (r : Render)
| EvClose
| EvClickEnd
| EvTimer
| EvUnmount.

Definition dispatch (ev : Event) (st : State) : State :=
  match ev with
  | EvShowDialer => showLiveConversation st
  | EvClickCall env => clickCall env st
  | EvOpen => state_of (onopen st)
  | EvMessage now m => state_of (onmessage now m st)
  | EvSourceEnded id => onended id st
  | EvError r => onerror r st
  | EvClose => onclose st
  | EvClickEnd => clickEnd st
  | EvTimer => fireTimer st
  | EvUnmount => unmount st
  end.

Fixpoint events (evs : list Event) (st : State) : State :=
  match evs with
  | [] => st
  | ev :: evs' => events evs' (dispatch ev st)
  end.

(** What a message leaves alone: the call state, the timers, the dialer
    flag and the six resource refs. *)
Definition session_view (st : State) :=
  (callState st, timers st, showDialer st,
   (sessionRef st, streamRef st, scriptProcessorRef st),
   (inputAudioContextRef st, outputAudioContextRef st, outputNodeRef st)).

End Basic.

(** ** The template-based variant (second [App] of [App.tsx], second
    [types.ts]) *)

Module Template.

Inductive Speaker := User | Agent | System | IVR.

Record TranscriptEntry := mkEntry {
  speaker : Speaker;
  text : jsstring
}.

(** The callback [endCall] hands to [setTimeout]. *)
Inductive Timer := SetIdle.

Record State := mkState {
  callState : CallState;  (* useState *)
  transcript : list TranscriptEntry;
  isOrbListening : bool;
  lastCallTranscript : option (list TranscriptEntry);
  summary : jsstring;
  isSummarizing : bool;
  ai : bool;  (* useRef; [true] once the client object is set *)
  sessionPromise : option handle;
  inputAudioContext : option handle;
  outputAudioContext : option handle;
  scriptProcessor : option handle;
  mediaStreamSource : option handle;
  nextStartTime : Q;
  audioSources : list AudioBufferSourceNode;
  currentInputTranscription : jsstring;
  currentOutputTranscription : jsstring;
  timers : list (Z * Timer);  (* pending setTimeout callbacks *)
  trace : list Effect;  (* requests made to the browser and the SDK *)
  summaryRequests : list (list TranscriptEntry);  (* transcripts sent to the summary model *)
  fresh : handle  (* next unused object identity *)
}.

Definition set_callState (v : CallState) (st : State) : State :=
  mkState v (transcript st) (isOrbListening st) (lastCallTranscript st)
    (summary st) (isSummarizing st) (ai st) (sessionPromise st)
    (inputAudioContext st) (outputAudioContext st) (scriptProcessor st)
    (mediaStreamSource st) (nextStartTime st) (audioSources st)
    (currentInputTranscription st) (currentOutputTranscription st)
    (timers st) (trace st) (summaryRequests st) (fresh st).
Definition set_transcript (v : list TranscriptEntry) (st : State) : State :=
  mkState (callState st) v (isOrbListening st) (lastCallTranscript st)
    (summary st) (isSummarizing st) (ai st) (sessionPromise st)
    (inputAudioContext st) (outputAudioContext st) (scriptProcessor st)
    (mediaStreamSource st) (nextStartTime st) (audioSources st)
    (currentInputTranscription st) (currentOutputTranscription st)
    (timers st) (trace st) (summaryRequests st) (fresh st).
Definition set_isOrbListening (v : bool) (st : State) : State :=
  mkState (callState st) (transcript st) v (lastCallTranscript st)
    (summary st) (isSummarizing st) (ai st) (sessionPromise st)
    (inputAudioContext st) (outputAudioContext st) (scriptProcessor st)
    (mediaStreamSource st) (nextStartTime st) (audioSources st)
    (currentInputTranscription st) (currentOutputTranscription st)
    (timers st) (trace st) (summaryRequests st) (fresh st).
Definition set_lastCallTranscript (v : option (list TranscriptEntry)) (st : State) : State :=
  mkState (callState st) (transcript st) (isOrbListening st) v (summary st)
    (isSummarizing st) (ai st) (sessionPromise st) (inputAudioContext st)
    (outputAudioContext st) (scriptProcessor st) (mediaStreamSource st)
    (nextStartTime st) (audioSources st) (currentInputTranscription st)
    (currentOutputTranscription st) (timers st) (trace st)
    (summaryRequests st) (fresh st).
Definition set_summary (v : jsstring) (st : State) : State :=
  mkState (callState st) (transcript st) (isOrbListening st)
    (lastCallTranscript st) v (isSummarizing st) (ai st)
    (sessionPromise st) (inputAudioContext st) (outputAudioContext st)
    (scriptProcessor st) (mediaStreamSource st) (nextStartTime st)
    (audioSources st) (currentInputTranscription st)
    (currentOutputTranscription st) (timers st) (trace st)
    (summaryRequests st) (fresh st).
Definition set_isSummarizing (v : bool) (st : State) : State :=
  mkState (callState st) (transcript st) (isOrbListening st)
    (lastCallTranscript st) (summary st) v (ai st) (sessionPromise st)
    (inputAudioContext st) (outputAudioContext st) (scriptProcessor st)
    (mediaStreamSource st) (nextStartTime st) (audioSources st)
    (currentInputTranscription st) (currentOutputTranscription st)
    (timers st) (trace st) (summaryRequests st) (fresh st).
Definition set_ai (v : bool) (st : State) : State :=
  mkState (callState st) (transcript st) (isOrbListening st)
    (lastCallTranscript st) (summary st) (isSummarizing st) v
    (sessionPromise st) (inputAudioContext st) (outputAudioContext st)
    (scriptProcessor st) (mediaStreamSource st) (nextStartTime st)
    (audioSources st) (currentInputTranscription st)
    (currentOutputTranscription st) (timers st) (trace st)
    (summaryRequests st) (fresh st).
Definition set_sessionPromise (v : option handle) (st : State) : State :=
  mkState (callState st) (transcript st) (isOrbListening st)
    (lastCallTranscript st) (summary st) (isSummarizing st) (ai st) v
    (inputAudioContext st) (outputAudioContext st) (scriptProcessor st)
    (mediaStreamSource st) (nextStartTime st) (audioSources st)
    (currentInputTranscription st) (currentOutputTranscription st)
    (timers st) (trace st) (summaryRequests st) (fresh st).
Definition set_inputAudioContext (v : option handle) (st : State) : State :=
  mkState (callState st) (transcript st) (isOrbListening st)
    (lastCallTranscript st) (summary st) (isSummarizing st) (ai st)
    (sessionPromise st) v (outputAudioContext st) (scriptProcessor st)
    (mediaStreamSource st) (nextStartTime st) (audioSources st)
    (currentInputTranscription st) (currentOutputTranscription st)
    (timers st) (trace st) (summaryRequests st) (fresh st).
Definition set_outputAudioContext (v : option handle) (st : State) : State :=
  mkState (callState st) (transcript st) (isOrbListening st)
    (lastCallTranscript st) (summary st) (isSummarizing st) (ai st)
    (sessionPromise st) (inputAudioContext st) v (scriptProcessor st)
    (mediaStreamSource st) (nextStartTime st) (audioSources st)
    (currentInputTranscription st) (currentOutputTranscription st)
    (timers st) (trace st) (summaryRequests st) (fresh st).
Definition set_scriptProcessor (v : option handle) (st : State) : State :=
  mkState (callState st) (transcript st) (isOrbListening st)
    (lastCallTranscript st) (summary st) (isSummarizing st) (ai st)
    (sessionPromise st) (inputAudioContext st) (outputAudioContext st) v
    (mediaStreamSource st) (nextStartTime st) (audioSources st)
    (currentInputTranscription st) (currentOutputTranscription st)
    (timers st) (trace st) (summaryRequests st) (fresh st).
Definition set_mediaStreamSource (v : option handle) (st : State) : State :=
  mkState (callState st) (transcript st) (isOrbListening st)
    (lastCallTranscript st) (summary st) (isSummarizing st) (ai st)
    (sessionPromise st) (inputAudioContext st) (outputAudioContext st)
    (scriptProcessor st) v (nextStartTime st) (audioSources st)
    (currentInputTranscription st) (currentOutputTranscription st)
    (timers st) (trace st) (summaryRequests st) (fresh st).
Definition set_nextStartTime (v : Q) (st : State) : State :=
  mkState (callState st) (transcript st) (isOrbListening st)
    (lastCallTranscript st) (summary st) (isSummarizing st) (ai st)
    (sessionPromise st) (inputAudioContext st) (outputAudioContext st)
    (scriptProcessor st) (mediaStreamSource st) v (audioSources st)
    (currentInputTranscription st) (currentOutputTranscription st)
    (timers st) (trace st) (summaryRequests st) (fresh st).
Definition set_audioSources (v : list AudioBufferSourceNode) (st : State) : State :=
  mkState (callState st) (transcript st) (isOrbListening st)
    (lastCallTranscript st) (summary st) (isSummarizing st) (ai st)
    (sessionPromise st) (inputAudioContext st) (outputAudioContext st)
    (scriptProcessor st) (mediaStreamSource st) (nextStartTime st) v
    (currentInputTranscription st) (currentOutputTranscription st)
    (timers st) (trace st) (summaryRequests st) (fresh st).
Definition set_currentInputTranscription (v : jsstring) (st : State) : State :=
  mkState (callState st) (transcript st) (isOrbListening st)
    (lastCallTranscript st) (summary st) (isSummarizing st) (ai st)
    (sessionPromise st) (inputAudioContext st) (outputAudioContext st)
    (scriptProcessor st) (mediaStreamSource st) (nextStartTime st)
    (audioSources st) v (currentOutputTranscription st) (timers st)
    (trace st) (summaryRequests st) (fresh st).
Definition set_currentOutputTranscription (v : jsstring) (st : State) : State :=
  mkState (callState st) (transcript st) (isOrbListening st)
    (lastCallTranscript st) (summary st) (isSummarizing st) (ai st)
    (sessionPromise st) (inputAudioContext st) (outputAudioContext st)
    (scriptProcessor st) (mediaStreamSource st) (nextStartTime st)
    (audioSources st) (currentInputTranscription st) v (timers st)
    (trace st) (summaryRequests st) (fresh st).
Definition set_timers (v : list (Z * Timer)) (st : State) : State :=
  mkState (callState st) (transcript st) (isOrbListening st)
    (lastCallTranscript st) (summary st) (isSummarizing st) (ai st)
    (sessionPromise st) (inputAudioContext st) (outputAudioContext st)
    (scriptProcessor st) (mediaStreamSource st) (nextStartTime st)
    (audioSources st) (currentInputTranscription st)
    (currentOutputTranscription st) v (trace st) (summaryRequests st)
    (fresh st).
Definition set_trace (v : list Effect) (st : State) : State :=
  mkState (callState st) (transcript st) (isOrbListening st)
    (lastCallTranscript st) (summary st) (isSummarizing st) (ai st)
    (sessionPromise st) (inputAudioContext st) (outputAudioContext st)
    (scriptProcessor st) (mediaStreamSource st) (nextStartTime st)
    (audioSources st) (currentInputTranscription st)
    (currentOutputTranscription st) (timers st) v (summaryRequests st)
    (fresh st).
Definition set_summaryRequests (v : list (list TranscriptEntry)) (st : State) : State :=
  mkState (callState st) (transcript st) (isOrbListening st)
    (lastCallTranscript st) (summary st) (isSummarizing st) (ai st)
    (sessionPromise st) (inputAudioContext st) (outputAudioContext st)
    (scriptProcessor st) (mediaStreamSource st) (nextStartTime st)
    (audioSources st) (currentInputTranscription st)
    (currentOutputTranscription st) (timers st) (trace st) v (fresh st).
Definition set_fresh (v : handle) (st : State) : State :=
  mkState (callState st) (transcript st) (isOrbListening st)
    (lastCallTranscript st) (summary st) (isSummarizing st) (ai st)
    (sessionPromise st) (inputAudioContext st) (outputAudioContext st)
    (scriptProcessor st) (mediaStreamSource st) (nextStartTime st)
    (audioSources st) (currentInputTranscription st)
    (currentOutputTranscription st) (timers st) (trace st)
    (summaryRequests st) v.
(** What a function created during a render sees of the React state. *)
Record Render := mkRender {
  seen_callState : CallState;
  seen_transcript : list TranscriptEntry
}.

Definition render (st : State) : Render :=
  mkRender (callState st) (transcript st).

Definition emit (es : list Effect) (st : State) : State :=
  set_trace (trace st ++ es) st.

(** [ref.current?.method()]. *)
Definition request (r : option handle) (e : handle -> Effect) (st : State)
  : State :=
  emit (opt_request r e) st.

Definition alloc (st : State) : handle * State :=
  (fresh st, set_fresh (S (fresh st)) st).

Definition addTranscriptEntry (sp : Speaker) (t : jsstring) (st : State)
  : State :=
  set_transcript (transcript st ++ [mkEntry sp t]) st.

(** [generateSummary] up to its request; the answer arrives through
    [summaryResolved] or [summaryRejected]. *)
Definition generateSummary (transcriptToSummarize : list TranscriptEntry)
  (st : State) : State :=
  if (negb (ai st) || Nat.eqb (List.length transcriptToSummarize) 0)%bool
  then st
  else
    let st := set_isSummarizing true st in
    let st := set_summary [] st in
    set_summaryRequests (summaryRequests st ++ [transcriptToSummarize]) st.

Definition summaryResolved (response : jsstring) (st : State) : State :=
  let st := set_summary response st in
  set_isSummarizing false st.

Definition summaryRejected (st : State) : State :=
  let st :=
    set_summary (str "Could not generate a summary for this call.") st in
  set_isSummarizing false st.

(** [endCall] tests no call state; [r] is the render that created it, of
    which it reads the transcript.  The session is closed through the
    promise, once it has resolved. *)
Definition endCall (r : Render) (st : State) : State :=
  let st := request (sessionPromise st) SessionClose st in
  let st := set_sessionPromise None st in
  let st := request (scriptProcessor st) NodeDisconnect st in
  let st := request (mediaStreamSource st) NodeDisconnect st in
  let st := request (inputAudioContext st) ContextClose st in
  let st := request (outputAudioContext st) ContextClose st in
  let st := set_scriptProcessor None st in
  let st := set_mediaStreamSource None st in
  let st := set_inputAudioContext None st in
  let st := set_outputAudioContext None st in
  let st := emit (stop_all (audioSources st)) st in
  let st := set_audioSources [] st in
  let st :=
    if Nat.ltb 2 (List.length (seen_transcript r)) then
      let finalTranscript := seen_transcript r in
      let st := set_lastCallTranscript (Some finalTranscript) st in
      generateSummary finalTranscript st
    else st in
  let st := set_transcript [] st in
  let st := set_isOrbListening false st in
  let st := set_callState Ended st in
  set_timers (timers st ++ [(2000, SetIdle)]) st.

Definition runTimer (t : Timer) (st : State) : State :=
  match t with
  | SetIdle => set_callState Idle st
  end.

(** The oldest pending timeout fires. *)
Definition fireTimer (st : State) : State :=
  match timers st with
  | [] => st
  | (_, t) :: rest => runTimer t (set_timers rest st)
  end.

(** What the environment answers during [startCall]; [ai.live.connect]
    returns its promise without being awaited. *)
Record Setup := mkSetup {
  micGranted : bool;
  inputContextCreated : bool;
  outputContextCreated : bool
}.

Definition startCall_catch (st : State) : State :=
  let st :=
    addTranscriptEntry System
      (str "Error: Could not get microphone access.") st in
  set_callState Idle st.

Definition startCall (r : Render) (env : Setup) (st : State) : State :=
  if (negb (ai st) || negb (CallState_eqb (seen_callState r) Idle))%bool
  then st else
  let st := set_callState Connecting st in
  let st := set_transcript [] st in
  let st := addTranscriptEntry System (str "Initializing session...") st in
  if negb (micGranted env) then startCall_catch st else
  let '(stream, st) := alloc st in
  if negb (inputContextCreated env) then startCall_catch st else
  let '(ictx, st) := alloc st in
  let st := set_inputAudioContext (Some ictx) st in
  if negb (outputContextCreated env) then startCall_catch st else
  let '(octx, st) := alloc st in
  let st := set_outputAudioContext (Some octx) st in
  let '(promise, st) := alloc st in
  set_sessionPromise (Some promise) st.

Definition onopen (st : State) : Completion State :=
  let st := set_callState Connected st in
  let st := set_isOrbListening true st in
  let st :=
    addTranscriptEntry System
      (str "Connection opened. You can start speaking.") st in
  match inputAudioContext st with
  | None => Throw st
  | Some _ =>
      let '(source, st) := alloc st in
      let st := set_mediaStreamSource (Some source) st in
      let '(processor, st) := alloc st in
      Normal (set_scriptProcessor (Some processor) st)
  end.

Definition handleTranscription (m : LiveServerMessage) (st : State)
  : State :=
  let st :=
    match inputTranscription m with
    | Some t =>
        set_currentInputTranscription (currentInputTranscription st ++ t) st
    | None => st
    end in
  match outputTranscription m with
  | Some t =>
      set_currentOutputTranscription (currentOutputTranscription st ++ t) st
  | None => st
  end.

Definition handleTurnComplete (m : LiveServerMessage) (st : State) : State :=
  if turnComplete m then
    let finalInput := trim (currentInputTranscription st) in
    let finalOutput := trim (currentOutputTranscription st) in
    let st :=
      if truthy finalInput
      then set_transcript (transcript st ++ [mkEntry User finalInput]) st
      else st in
    let st :=
      if truthy finalOutput
      then set_transcript (transcript st ++ [mkEntry Agent finalOutput]) st
      else st in
    let st := set_currentInputTranscription [] st in
    set_currentOutputTranscription [] st
  else st.

(** The [if (base64Audio)] block; [now] is
    [outputAudioContext.current.currentTime]. *)
Definition handleAudio (now : Q) (m : LiveServerMessage) (st : State)
  : Completion State :=
  match modelTurnAudio m with
  | None => Normal st
  | Some duration =>
      let st := set_isOrbListening false st in
      match outputAudioContext st with
      | None => Throw st
      | Some _ =>
          let st := set_nextStartTime (Qmax (nextStartTime st) now) st in
          let '(id, st) := alloc st in
          let source := mkSource id duration in
          let st := emit [SourceStart source (nextStartTime st)] st in
          let st := set_nextStartTime (nextStartTime st + duration)%Q st in
          Normal (set_audioSources (audioSources st ++ [source]) st)
      end
  end.

Definition handleInterrupted (m : LiveServerMessage) (st : State) : State :=
  if interrupted m then
    let st := emit (stop_all (audioSources st)) st in
    let st := set_audioSources [] st in
    set_nextStartTime 0%Q st
  else st.

Definition onmessage (now : Q) (m : LiveServerMessage) (st : State)
  : Completion State :=
  let st := handleTranscription m st in
  let st := handleTurnComplete m st in
  match handleAudio now m st with
  | Throw st => Throw st
  | Normal st => Normal (handleInterrupted m st)
  end.

(** [source.onended]. *)
Definition onended (id : handle) (st : State) : State :=
  let st :=
    set_audioSources
      (List.filter (fun s => negb (Nat.eqb (node_id s) id))
         (audioSources st)) st in
  match audioSources st with
  | [] => set_isOrbListening true st
  | _ :: _ => st
  end.

(** [onerror] and [onclose] are created inside [startCall]; [r] is the
    render in which that [startCall] was created. *)
Definition onerror (r : Render) (message : jsstring) (st : State) : State :=
  let st := addTranscriptEntry System (str "Error: " ++ message) st in
  endCall r st.

Definition onclose (r : Render) (st : State) : State :=
  let st := addTranscriptEntry System (str "Session closed.") st in
  endCall r st.

(** Messages handled one after the other, each with the clock reading of
    its handler; a handler that throws leaves the state it reached. *)
Fixpoint run (evs : list (Q * LiveServerMessage)) (st : State) : State :=
  match evs with
  | [] => st
  | (now, m) :: evs' => run evs' (state_of (onmessage now m st))
  end.

(** [Dialer]: the End button is [disabled={callState !== Connected}], the
    Call button is disabled while Connected or Connecting. *)
Definition endBtn_disabled (cs : CallState) : bool :=
  negb (CallState_eqb cs Connected).

Definition callBtn_disabled (cs : CallState) : bool :=
  (CallState_eqb cs Connected || CallState_eqb cs Connecting)%bool.

Definition clickEnd (st : State) : State :=
  if endBtn_disabled (callState st) then st else endCall (render st) st.

(** The state of a freshly mounted component, its effect having set
    [ai]. *)
Definition initial : State :=
  mkState Idle [] false None [] false true None None None None None 0%Q []
    [] [] [] [] [] O.

(** The ref [handleAudio] asserts non-null is set. *)
Definition playback_ready (st : State) : bool :=
  match outputAudioContext st with
  | Some _ => true
  | None => false
  end.

(** The text a message contributes to speaker [sp]. *)
Definition partial_of (sp : Speaker) (m : LiveServerMessage)
  : option jsstring :=
  match sp with
  | User => inputTranscription m
  | Agent => outputTranscription m
  | _ => None
  end.

Definition accumulator (sp : Speaker) (st : State) : jsstring :=
  match sp with
  | User => currentInputTranscription st
  | Agent => currentOutputTranscription st
  | _ => []
  end.

(** The entries a turn-complete signal appends for an accumulator. *)
Definition finalized (sp : Speaker) (acc : jsstring) : list TranscriptEntry :=
  if truthy (trim acc) then [mkEntry sp (trim acc)] else [].

(** What the teardown of [endCall] acts on: the five refs it clears, the
    live set, and the requests made so far. *)
Definition resources (st : State) :=
  (sessionPromise st, scriptProcessor st, mediaStreamSource st,
   inputAudioContext st, outputAudioContext st,
   audioSources st, trace st).

(** The requests of a teardown, in the order [endCall] makes them. *)
Definition released (st : State) : list Effect :=
  opt_request (sessionPromise st) SessionClose
  ++ opt_request (scriptProcessor st) NodeDisconnect
  ++ opt_request (mediaStreamSource st) NodeDisconnect
  ++ opt_request (inputAudioContext st) ContextClose
  ++ opt_request (outputAudioContext st) ContextClose
  ++ stop_all (audioSources st).

(** A call set up without failure and opened. *)
Definition all_ok : Setup := mkSetup true true true.

Definition connected : State :=
  state_of (onopen (startCall (render initial) all_ok initial)).

(** [Template] and [Voice] of [types.ts], and the [voice] column of
    [GREETINGS]. *)
Inductive TemplateId := airline | bank | telecom | insurance | warm | calm.

Inductive Voice := Kore | Puck | Charon | Fenrir | Zephyr.

Definition voiceName (v : Voice) : jsstring :=
  match v with
  | Kore => str "Kore"
  | Puck => str "Puck"
  | Charon => str "Charon"
  | Fenrir => str "Fenrir"
  | Zephyr => str "Zephyr"
  end.

Definition greeting_voice (t : TemplateId) : Voice :=
  match t with
  | airline => Kore
  | bank => Zephyr
  | telecom => Puck
  | insurance => Charon
  | warm => Kore
  | calm => Fenrir
  end.

(** What the speech request of [previewVoice] comes to: a payload whose
    decoded buffer lasts [d], a payload that cannot be decoded, an
    answer without audio, a rejection. *)
Inductive TtsOutcome :=
| TtsAudio (d : Q)
| TtsBadAudio
| TtsNoAudio
| TtsRejected.

(** [source.start()] without argument starts at time 0, that is at once. *)
Definition previewVoice (template : TemplateId) (out : TtsOutcome)
  (st : State) : State :=
  if negb (ai st) then st else
  let st :=
    addTranscriptEntry System
      (str "Previewing voice: " ++ voiceName (greeting_voice template)) st in
  match out with
  | TtsRejected =>
      addTranscriptEntry System
        (str "Error: Could not generate voice preview.") st
  | TtsNoAudio => st
  | TtsBadAudio =>
      let st :=
        match outputAudioContext st with
        | Some _ => st
        | None =>
            let '(octx, st) := alloc st in
            set_outputAudioContext (Some octx) st
        end in
      addTranscriptEntry System
        (str "Error: Could not generate voice preview.") st
  | TtsAudio d =>
      let st :=
        match outputAudioContext st with
        | Some _ => st
        | None =>
            let '(octx, st) := alloc st in
            set_outputAudioContext (Some octx) st
        end in
      let '(id, st) := alloc st in
      emit [SourceStart (mkSource id d) 0%Q] st
  end.

Definition handleCloseSummary (st : State) : State :=
  let st := set_lastCallTranscript None st in
  set_summary [] st.

(** The Dialer's Call button. *)
Definition clickCall (env : Setup) (st : State) : State :=
  if callBtn_disabled (callState st) then st
  else startCall (render st) env st.

(** What can happen to the mounted component: a click, a callback of the
    session ([r] being the render whose [startCall] created the
    callbacks), the end of a source node, a timeout, the answer of a
    summary request. *)
Inductive Event :=
| EvPreviewVoice (template : TemplateId) (out : TtsOutcome)
| EvClickCall (env : Setup)
| EvOpen
| EvMessage (now : Q) (m : LiveServerMessage)
| EvSourceEnded (id : handle)
| EvError (r : Render) (message : jsstring)
| EvClose (r : Render)
| EvClickEnd
| EvTimer
| EvSummaryResolved (response : jsstring)
| EvSummaryRejected
| EvCloseSummary.

Definition dispatch (ev : Event) (st : State) : State :=
  match ev with
  | EvPreviewVoice template out => previewVoice template out st
  | EvClickCall env => clickCall env st
  | EvOpen => state_of (onopen st)
  | EvMessage now m => state_of (onmessage now m st)
  | EvSourceEnded id => onended id st
  | EvError r message => onerror r message st
  | EvClose r => onclose r st
  | EvClickEnd => clickEnd st
  | EvTimer => fireTimer st
  | EvSummaryResolved response => summaryResolved response st
  | EvSummaryRejected => summaryRejected st
  | EvCloseSummary => handleCloseSummary st
  end.

Fixpoint events (evs : list Event) (st : State) : State :=
  match evs with
  | [] => st
  | ev :: evs' => events evs' (dispatch ev st)
  end.

(** What a message leaves alone: the call state, the timers, the summary
    cells and the five resource refs. *)
Definition session_view (st : State) :=
  (callState st, timers st,
   (lastCallTranscript st, summary st, isSummarizing st, summaryRequests st),
   (ai st, sessionPromise st, scriptProcessor st),
   (mediaStreamSource st, inputAudioContext st, outputAudioContext st)).

End Template.

(** ** Vocabulary of the statements *)

(** The reply fragments of a sequence of messages: the clock reading of
    the handler and the duration of the decoded buffer. *)
Fixpoint fragments (evs : list (Q * LiveServerMessage)) : list (Q * Q) :=
  match evs with
  | [] => []
  | (now, m) :: evs' =>
      match modelTurnAudio m with
      | Some d => (now, d) :: fragments evs'
      | None => fragments evs'
      end
  end.


(** The cursor arithmetic as the specification words it: a fragment
    begins at the later of the cursor and the clock, and the cursor moves
    to its end. *)
Fixpoint back_to_back (cursor : Q) (frags : list (Q * Q)) : list (Q * Q) :=
  match frags with
  | [] => []
  | (clock, d) :: rest =>
      let start := Qmax cursor clock in
      (start, d) :: back_to_back (start + d)%Q rest
  end.

Fixpoint cursor_after (cursor : Q) (frags : list (Q * Q)) : Q :=
  match frags with
  | [] => cursor
  | (clock, d) :: rest => cursor_after (Qmax cursor clock + d)%Q rest
  end.


Definition carries_audio (m : LiveServerMessage) : bool :=
  match modelTurnAudio m with Some _ => true | None => false end.

(** A message is a partial-text event of a speaker, [partial_of] telling
    which text a variant reads for that speaker, when it has such a text
    and no turn-complete signal. *)
Definition speaks (partial_of : LiveServerMessage -> option jsstring)
  (ev : Q * LiveServerMessage) : bool :=
  match partial_of (snd ev) with
  | Some _ => negb (turnComplete (snd ev))
  | None => false
  end.

(** The texts of a sequence of events, concatenated in order. *)
Fixpoint spoken (partial_of : LiveServerMessage -> option jsstring)
  (evs : list (Q * LiveServerMessage)) : jsstring :=
  match evs with
  | [] => []
  | ev :: evs' =>
      match partial_of (snd ev) with
      | Some t => t ++ spoken partial_of evs'
      | None => spoken partial_of evs'
      end
  end.

(** An accumulator extended by the text of a message, if it has one. *)
Definition with_partial (acc : jsstring) (o : option jsstring) : jsstring :=
  match o with Some t => acc ++ t | None => acc end.

(** A message that only carries a partial transcription of the user,
    of the agent, a turn-complete signal, a reply fragment, an
    interruption. *)
Definition userSays (t : string) : LiveServerMessage :=
  mkMessage (Some (str t)) None false None false.

Definition agentSays (t : string) : LiveServerMessage :=
  mkMessage None (Some (str t)) false None false.

Definition turnCompleted : LiveServerMessage :=
  mkMessage None None true None false.

Definition replyAudio (d : Q) : LiveServerMessage :=
  mkMessage None None false (Some d) false.

Definition interruption : LiveServerMessage :=
  mkMessage None None false None true.

(** The live set as a JavaScript [Set] of distinct objects: no identity
    twice, and none that is still to be allocated. *)
Definition sources_fresh (next : handle) (sources : list AudioBufferSourceNode)
  : Prop :=
  NoDup (List.map node_id sources)
  /\ Forall (fun s => (node_id s < next)%nat) sources.

Definition is_track_stop (e : Effect) : bool :=
  match e with TrackStop _ => true | _ => false end.

Definition nonneg_durations (evs : list (Q * LiveServerMessage)) : bool :=
  forallb (fun f => Qle_bool 0 (snd f)) (fragments evs).

(** A text without white space at either end. *)
Definition trimmed (s : jsstring) : bool :=
  match s with
  | [] => true
  | c :: _ => negb (isWhiteSpace c) && negb (isWhiteSpace (List.last s c))
  end.

(** An entry of the user or of the agent whose text is not empty and has
    no white space at either end. *)
Definition spoken_entry (e : Template.TranscriptEntry) : bool :=
  match Template.speaker e with
  | Template.User | Template.Agent =>
      truthy (Template.text e) && trimmed (Template.text e)
  | _ => false
  end.

(** No two neighbours of a sequence of speakers are the same. *)
Fixpoint alternating (l : list Basic.Speaker) : bool :=
  match l with
  | a :: l' =>
      match l' with
      | b :: _ => negb (Basic.Speaker_eqb a b) && alternating l'
      | [] => true
      end
  | [] => true
  end.

(** The messages of a sequence that carry the turn-complete signal. *)
Definition turns_completed (evs : list (Q * LiveServerMessage)) : nat :=
  List.length (List.filter (fun ev => turnComplete (snd ev)) evs).

(** A sample of magnitude below full scale, [-1 <= x < 1]. *)
Definition below_full_scale (x : spec_float) : bool :=
  (Qle_bool (-1) (PCM.value x) && negb (Qle_bool 1 (PCM.value x)))%bool.


(** * Properties *)

(** ** Capture pipeline: the sample conversion *)

(** *** Rounding without loss *)

Section ExactRounding.
Variables prec emax : Z.

Lemma iter_pos_nat {A : Type} (f : A -> A) (p : positive) :
  forall x, iter_pos f p x = Nat.iter (Pos.to_nat p) f x.
Proof.
  induction p as [p IH|p IH|]; intros x; cbn [iter_pos].
  - rewrite !IH, Pos2Nat.inj_xI. cbn [Nat.mul]. rewrite Nat.add_0_r.
    rewrite <- Nat.iter_add. symmetry. rewrite Nat.iter_succ_r.
    reflexivity.
  - rewrite !IH, Pos2Nat.inj_xO. cbn [Nat.mul]. rewrite Nat.add_0_r.
    rewrite <- Nat.iter_add. reflexivity.
  - reflexivity.
Qed.

Lemma digits2_shiftl_nat (p : positive) (n : nat) :
  Z.pos (digits2_pos (Pos.shiftl_nat p n))
  = Z.pos (digits2_pos p) + Z.of_nat n.
Proof.
  induction n as [|n IH]; [cbn; lia|].
  change (Pos.shiftl_nat p (S n)) with (xO (Pos.shiftl_nat p n)).
  cbn [digits2_pos]. rewrite Pos2Z.inj_succ, IH. lia.
Qed.

Lemma shr_1_shiftl_nat (p : positive) (n : nat) :
  Nat.iter n shr_1
    {| shr_m := Z.pos (Pos.shiftl_nat p n); shr_r := false; shr_s := false |}
  = {| shr_m := Z.pos p; shr_r := false; shr_s := false |}.
Proof.
  induction n as [|n IH]; [reflexivity|].
  rewrite Nat.iter_succ_r.
  change (Pos.shiftl_nat p (S n)) with (xO (Pos.shiftl_nat p n)).
  cbn [shr_1 orb]. exact IH.
Qed.

Lemma shr_shiftl_nat (p : positive) (n : nat) (e : Z) :
  shr {| shr_m := Z.pos (Pos.shiftl_nat p n); shr_r := false; shr_s := false |}
    e (Z.of_nat n)
  = ({| shr_m := Z.pos p; shr_r := false; shr_s := false |}, e + Z.of_nat n).
Proof.
  destruct n as [|n].
  - cbn. rewrite Z.add_0_r. reflexivity.
  - unfold shr. cbn [Z.of_nat]. rewrite iter_pos_nat, SuccNat2Pos.id_succ.
    rewrite shr_1_shiftl_nat. reflexivity.
Qed.

(** Rounding a mantissa whose [n] dropped bits are all zero keeps the
    value: the mantissa loses the bits, the exponent gains [n]. *)
Lemma binary_round_aux_exact (s : bool) (p : positive) (n : nat) (ex : Z) :
  fexp prec emax (Z.pos (digits2_pos (Pos.shiftl_nat p n)) + ex) - ex
  = Z.of_nat n ->
  binary_round_aux prec emax s (Z.pos (Pos.shiftl_nat p n)) ex loc_Exact
  = if ex + Z.of_nat n <=? emax - prec
    then S754_finite s p (ex + Z.of_nat n)
    else S754_infinity s.
Proof.
  intros H. unfold binary_round_aux, shr_fexp.
  cbn [Zdigits2 shr_record_of_loc]. rewrite H, shr_shiftl_nat.
  cbn [shr_m loc_of_shr_record round_nearest_even Zdigits2 shr_record_of_loc].
  replace (fexp prec emax (Z.pos (digits2_pos p) + (ex + Z.of_nat n))
           - (ex + Z.of_nat n)) with 0.
  - reflexivity.
  - rewrite digits2_shiftl_nat in H.
    replace (Z.pos (digits2_pos p) + (ex + Z.of_nat n))
      with (Z.pos (digits2_pos p) + Z.of_nat n + ex) by lia.
    lia.
Qed.

End ExactRounding.

(** *** From the sample to the stored integer *)

Section SampleConversion.
Import PCM.

Lemma bounded32_inv (m : positive) (e : Z) :
  bounded 24 128 m e = true ->
  Z.pos (digits2_pos m) <= 24 /\ -149 <= e <= 104 /\
  Z.max (Z.pos (digits2_pos m) + e - 24) (-149) = e.
Proof.
  unfold bounded, canonical_mantissa, fexp, emin. intros H.
  apply andb_true_iff in H as [Hc He].
  apply Z.eqb_eq in Hc. apply Z.leb_le in He. lia.
Qed.

Lemma shiftl_nat_add (m : positive) (a b : nat) :
  Pos.shiftl_nat m (a + b) = Pos.shiftl_nat (Pos.shiftl_nat m a) b.
Proof.
  unfold Pos.shiftl_nat. rewrite Nat.add_comm. apply Nat.iter_add.
Qed.

Lemma pos_shiftl_nat_Z (m : positive) (k : nat) :
  Z.pos (Pos.shiftl_nat m k) = Z.shiftl (Z.pos m) (Z.of_nat k).
Proof.
  rewrite Z.shiftl_mul_pow2 by lia.
  induction k as [|k IH]; [cbn; lia|].
  change (Pos.shiftl_nat m (S k)) with (xO (Pos.shiftl_nat m k)).
  rewrite Pos2Z.inj_xO, IH, Nat2Z.inj_succ, Z.pow_succ_r by lia. ring.
Qed.

Lemma digits_pad (m : positive) :
  Z.pos (digits2_pos m) <= 24 ->
  Z.pos (digits2_pos (Pos.shiftl_nat m (pad m))) = 53.
Proof. intros H. rewrite digits2_shiftl_nat. unfold pad. lia. Qed.

(** A binary32 value read as a Number: the mantissa padded to 53 bits. *)
Lemma toNumber_finite (s : bool) (m : positive) (e : Z) :
  bounded 24 128 m e = true ->
  toNumber (S754_finite s m e)
  = S754_finite s (Pos.shiftl_nat m (pad m)) (e - Z.of_nat (pad m)).
Proof.
  intros Hb. destruct (bounded32_inv m e Hb) as (Hd & He & _).
  pose proof (Pos2Z.is_pos (digits2_pos m)) as Hpos.
  unfold toNumber, binary_round, shl_align, pad.
  assert (Hf : fexp 53 1024 (Z.pos (digits2_pos m) + e)
               = e - Z.of_nat (Z.to_nat (53 - Z.pos (digits2_pos m))))
    by (unfold fexp, emin; lia).
  rewrite Hf.
  destruct (e - Z.of_nat (Z.to_nat (53 - Z.pos (digits2_pos m))) - e)
    as [| |dd] eqn:Hz; [lia|lia|].
  rewrite Pos2Nat.inj_iter.
  replace (Pos.to_nat dd) with (Z.to_nat (53 - Z.pos (digits2_pos m))) by lia.
  set (k := Z.to_nat (53 - Z.pos (digits2_pos m))) in *.
  change (nat_rect (fun _ => positive) m (fun _ => xO) k)
    with (Pos.shiftl_nat (Pos.shiftl_nat m k) 0).
  rewrite binary_round_aux_exact.
  - cbn [Z.of_nat]. rewrite Z.add_0_r.
    destruct (Z.leb_spec (e - Z.of_nat k) (1024 - 53)); [reflexivity|lia].
  - cbn [Pos.shiftl_nat Nat.iter nat_rect Z.of_nat].
    change (nat_rect (fun _ => positive) m (fun _ => xO) k)
      with (Pos.shiftl_nat m k).
    rewrite digits2_shiftl_nat. unfold fexp, emin. lia.
Qed.

(** The binary64 product of a 53-bit mantissa by 32768 only moves the
    exponent. *)
Lemma mul_32768 (s : bool) (p : positive) (e : Z) :
  Z.pos (digits2_pos p) = 53 -> -1089 <= e <= 956 ->
  mul (S754_finite s p e) SF32768 = S754_finite s p (e + 15).
Proof.
  intros Hd He. unfold mul, SFmul, SF32768. rewrite xorb_false_r.
  rewrite Pos.mul_comm.
  change (4503599627370496 * p)%positive with (Pos.shiftl_nat p 52).
  rewrite binary_round_aux_exact.
  - replace (e + -37 + Z.of_nat 52) with (e + 15) by lia.
    destruct (Z.leb_spec (e + 15) (1024 - 53)); [reflexivity|lia].
  - rewrite digits2_shiftl_nat, Hd. unfold fexp, emin. lia.
Qed.

Lemma product_finite (s : bool) (m : positive) (e : Z) :
  bounded 24 128 m e = true ->
  mul (toNumber (S754_finite s m e)) SF32768
  = S754_finite s (Pos.shiftl_nat m (pad m)) (e - Z.of_nat (pad m) + 15).
Proof.
  intros Hb. destruct (bounded32_inv m e Hb) as (Hd & He & _).
  rewrite toNumber_finite by exact Hb.
  apply mul_32768; [apply digits_pad, Hd|]. unfold pad. lia.
Qed.

(** Stored as binary32, the product keeps its value or, from [2^128] on,
    becomes an infinity. *)
Lemma toFloat32_product (s : bool) (m : positive) (e : Z) :
  bounded 24 128 m e = true ->
  let ex := e - Z.of_nat (pad m) + 15 in
  let n := dropped m e in
  (n <= pad m)%nat /\
  fexp 24 128 (53 + ex) = ex + Z.of_nat n /\
  toFloat32 (S754_finite s (Pos.shiftl_nat m (pad m)) ex)
  = if ex + Z.of_nat n <=? 104
    then S754_finite s (Pos.shiftl_nat m (pad m - n)) (ex + Z.of_nat n)
    else S754_infinity s.
Proof.
  intros Hb ex n. destruct (bounded32_inv m e Hb) as (Hd & He & Hc).
  pose proof (Pos2Z.is_pos (digits2_pos m)) as Hpos.
  assert (Hn : (n <= pad m)%nat) by (unfold n, dropped, pad; lia).
  assert (Hf : fexp 24 128 (53 + ex) - ex = Z.of_nat n)
    by (unfold fexp, emin, n, dropped; fold ex; lia).
  split; [exact Hn|]. split; [lia|].
  unfold toFloat32, binary_round, shl_align.
  rewrite (digits_pad m Hd), Hf.
  destruct (Z.of_nat n) as [| |dd] eqn:Hz; [| |lia].
  - exfalso. unfold n, dropped in Hz. lia.
  - rewrite <- Hz.
    replace (pad m) with ((pad m - n) + n)%nat at 1 by lia.
    rewrite shiftl_nat_add.
    change (128 - 24) with 104.
    rewrite (binary_round_aux_exact 24 128); [reflexivity|].
    rewrite <- shiftl_nat_add.
    replace (pad m - n + n)%nat with (pad m) by lia.
    rewrite (digits_pad m Hd). rewrite Hz. exact Hf.
Qed.

Lemma land_wrap16 (t : Z) :
  (let b := Z.land t 65535 in if 32768 <=? b then b - 65536 else b)
  = wrap16 t.
Proof.
  cbv zeta. change 65535 with (Z.ones 16).
  rewrite Z.land_ones by lia. change (2 ^ 16) with 65536.
  unfold wrap16.
  destruct (Z.leb_spec 32768 (t mod 65536));
    Z.to_euclidean_division_equations; lia.
Qed.

Lemma wrap16_range (t : Z) : -32768 <= wrap16 t <= 32767.
Proof. unfold wrap16. Z.to_euclidean_division_equations; lia. Qed.

Lemma wrap16_in_range (t : Z) : -32768 <= t <= 32767 -> wrap16 t = t.
Proof. unfold wrap16. intros H. Z.to_euclidean_division_equations; lia. Qed.

Lemma wrap16_multiple (k : Z) : wrap16 (k * 65536) = 0.
Proof.
  unfold wrap16. rewrite Z.add_comm, Z.mod_add by lia. reflexivity.
Qed.

Lemma ToInt16_finite (s : bool) (m : positive) (e : Z) :
  ToInt16 (S754_finite s m e) = wrap16 (truncate (S754_finite s m e)).
Proof. unfold ToInt16. apply land_wrap16. Qed.

(** Padding the mantissa with [k] zero bits and lowering the exponent by
    [k] does not change the truncated value. *)
Lemma truncate_shiftl_nat (s : bool) (m : positive) (k : nat) (e : Z) :
  truncate (S754_finite s (Pos.shiftl_nat m k) (e - Z.of_nat k))
  = truncate (S754_finite s m e).
Proof.
  unfold truncate. rewrite pos_shiftl_nat_Z, Z.shiftl_shiftl by lia.
  replace (Z.of_nat k + (e - Z.of_nat k)) with e by lia. reflexivity.
Qed.

(** Shifting the magnitude by [e + 15] is multiplying by [2^e * 2^15],
    or dividing [m * 2^15] by [2^-e] when [e] is negative. *)
Lemma shiftl_pos_scaled (m : positive) (e : Z) :
  Z.shiftl (Z.pos m) (e + 15)
  = if 0 <=? e then Z.pos m * 2 ^ e * 32768
    else Z.pos m * 32768 / 2 ^ (- e).
Proof.
  destruct (Z.leb_spec 0 e) as [He|He].
  - rewrite Z.shiftl_mul_pow2 by lia.
    rewrite Z.pow_add_r by lia. change (2 ^ 15) with 32768. ring.
  - destruct (Z.le_gt_cases 0 (e + 15)) as [H15|H15].
    + rewrite Z.shiftl_mul_pow2 by lia.
      replace 32768 with (2 ^ (e + 15) * 2 ^ (- e)).
      * rewrite Z.mul_assoc. rewrite Z.div_mul; [reflexivity|].
        apply Z.pow_nonzero; lia.
      * rewrite <- Z.pow_add_r by lia. replace (e + 15 + - e) with 15 by lia.
        reflexivity.
    + rewrite Z.shiftl_div_pow2 by lia.
      replace (2 ^ (- e)) with (32768 * 2 ^ (- (e + 15))).
      * rewrite (Z.mul_comm (Z.pos m) 32768).
        rewrite Z.div_mul_cancel_l; [reflexivity| |lia].
        apply Z.pow_nonzero; lia.
      * change 32768 with (2 ^ 15). rewrite <- Z.pow_add_r by lia.
        f_equal. lia.
Qed.

(** The truncated product, by shifts and as a rational. *)
Lemma truncate_scaled (s : bool) (m : positive) (e : Z) :
  truncate (S754_finite s m (e + 15))
  = Qtrunc (value (S754_finite s m e) * 32768).
Proof.
  unfold truncate, value, Qtrunc.
  rewrite shiftl_pos_scaled.
  destruct (Z.leb_spec 0 e) as [He|He].
  - cbn [Qmult inject_Z Qnum Qden]. cbn [Pos.mul].
    rewrite Z.quot_1_r.
    destruct s; [change (Z.neg m) with (- Z.pos m)|]; ring.
  - cbn [Qmult Qnum Qden]. rewrite Pos.mul_1_r.
    assert (Hp : 0 < 2 ^ (- e)) by (apply Z.pow_pos_nonneg; lia).
    rewrite Z2Pos.id by exact Hp.
    destruct s.
    + change (Z.neg m) with (- Z.pos m).
      rewrite Z.mul_opp_l, Z.quot_opp_l by lia.
      rewrite Z.quot_div_nonneg by lia. reflexivity.
    + rewrite Z.quot_div_nonneg by lia. reflexivity.
Qed.

Lemma sample_basic_finite (s : bool) (m : positive) (e : Z) :
  bounded 24 128 m e = true ->
  sample_basic (S754_finite s m e) = scaled_wrapped (S754_finite s m e).
Proof.
  intros Hb. unfold sample_basic, scaled_wrapped.
  rewrite product_finite by exact Hb.
  rewrite ToInt16_finite, <- truncate_scaled. f_equal.
  replace (e - Z.of_nat (pad m) + 15) with (e + 15 - Z.of_nat (pad m)) by lia.
  apply truncate_shiftl_nat.
Qed.

(** A product too large for binary32 is a multiple of [2^16]: the
    infinity it is stored as and the wrapped value both give 0. *)
Lemma sample_template_finite (s : bool) (m : positive) (e : Z) :
  bounded 24 128 m e = true ->
  sample_template (S754_finite s m e) = scaled_wrapped (S754_finite s m e).
Proof.
  intros Hb. destruct (bounded32_inv m e Hb) as (Hd & He & Hc).
  pose proof (Pos2Z.is_pos (digits2_pos m)) as Hpos.
  unfold sample_template, scaled_wrapped.
  rewrite product_finite by exact Hb.
  destruct (toFloat32_product s m e Hb) as (Hn & Hf & ->).
  rewrite <- truncate_scaled.
  set (ex := e - Z.of_nat (pad m) + 15) in *.
  set (n := dropped m e) in *.
  destruct (Z.leb_spec (ex + Z.of_nat n) 104) as [Hle|Hgt].
  - assert (Hb' : bounded 24 128 (Pos.shiftl_nat m (pad m - n))
                    (ex + Z.of_nat n) = true).
    { unfold bounded, canonical_mantissa. apply andb_true_iff. split.
      - apply Z.eqb_eq. rewrite digits2_shiftl_nat.
        replace (Z.pos (digits2_pos m) + Z.of_nat (pad m - n)
                 + (ex + Z.of_nat n)) with (53 + ex)
          by (unfold pad in *; lia).
        exact Hf.
      - apply Z.leb_le. exact Hle. }
    rewrite toNumber_finite by exact Hb'.
    rewrite ToInt16_finite, truncate_shiftl_nat. f_equal.
    replace (ex + Z.of_nat n)
      with (e + 15 - Z.of_nat (pad m - n)) by (unfold ex; lia).
    apply truncate_shiftl_nat.
  - cbn [toNumber ToInt16]. symmetry.
    assert (H16 : 16 <= e + 15)
      by (unfold ex, n, dropped, pad in *; lia).
    unfold truncate. rewrite Z.shiftl_mul_pow2 by lia.
    replace (e + 15) with (e - 1 + 16) by lia.
    rewrite Z.pow_add_r by lia. change (2 ^ 16) with 65536.
    destruct s.
    + rewrite Z.mul_assoc, <- Z.mul_opp_l. apply wrap16_multiple.
    + rewrite Z.mul_assoc. apply wrap16_multiple.
Qed.

Lemma sample_number (x : spec_float) :
  is_sample x = true ->
  sample_basic x = scaled_wrapped x /\ sample_template x = scaled_wrapped x.
Proof.
  destruct x as [z|i| |s m e]; try discriminate.
  - intros _. split; reflexivity.
  - intros Hb. split;
      [apply sample_basic_finite|apply sample_template_finite]; exact Hb.
Qed.

(** Infinities and NaN are stored as 0 by both variants. *)
Lemma sample_not_number (x : spec_float) :
  match x with S754_infinity _ | S754_nan => True | _ => False end ->
  sample_basic x = 0 /\ sample_template x = 0.
Proof. destruct x; intros H; try contradiction; split; reflexivity. Qed.

(** Within [-1 <= x < 1] nothing wraps: the stored integer is the
    truncated product. *)
Lemma sample_in_range (x : spec_float) :
  is_sample x = true ->
  -32768 <= Qtrunc (value x * 32768) <= 32767 ->
  sample_basic x = Qtrunc (value x * 32768).
Proof.
  intros Hx Hr. destruct (sample_number x Hx) as [-> _].
  apply wrap16_in_range, Hr.
Qed.

End SampleConversion.

(** C9. For every block of captured samples that are numbers (zeros and
    finite binary32 values), both variants of [onaudioprocess] store, for
    each sample [x], the truncation of [x * 32768] reduced modulo 2^16
    into the signed 16-bit range; nothing is clamped, and every stored
    value lies in [-32768, 32767]. *)
Theorem capture_sample_wraps (inputData : list spec_float) :
  forallb PCM.is_sample inputData = true ->
  PCM.onaudioprocess_basic inputData
  = List.map PCM.scaled_wrapped inputData /\
  PCM.onaudioprocess_template inputData
  = List.map PCM.scaled_wrapped inputData /\
  Forall (fun z => -32768 <= z <= 32767)
    (PCM.onaudioprocess_basic inputData).
Proof.
  unfold PCM.onaudioprocess_basic, PCM.onaudioprocess_template.
  induction inputData as [|x l IH]; intros H.
  - repeat split; constructor.
  - cbn [forallb] in H. apply andb_true_iff in H as [Hx Hl].
    destruct (IH Hl) as (IH1 & IH2 & IH3).
    destruct (sample_number x Hx) as [Hb Ht].
    cbn [List.map]. rewrite IH1, IH2, Hb, Ht.
    repeat split. constructor; [apply wrap16_range|].
    rewrite <- IH1. exact IH3.
Qed.

(** The samples 0.5, 1.0, -1.0, 1.5, the largest binary32 value and the
    smallest positive one: full scale wraps to -32768 where saturation
    would give 32767, and 1.5 wraps to -16384. *)
Lemma capture_sample_wraps_block :
  let block :=
    [S754_finite false 8388608 (-24); S754_finite false 8388608 (-23);
     S754_finite true 8388608 (-23); S754_finite false 12582912 (-23);
     S754_finite false 16777215 104; S754_finite false 1 (-149)] in
  PCM.onaudioprocess_basic block = [16384; -32768; -32768; -16384; 0; 0] /\
  PCM.onaudioprocess_template block = [16384; -32768; -32768; -16384; 0; 0] /\
  PCM.saturate16 (PCM.Qtrunc (PCM.value (S754_finite false 8388608 (-23))
                              * 32768)) = 32767.
Proof.
  cbv zeta.
  destruct (capture_sample_wraps
              [S754_finite false 8388608 (-24);
               S754_finite false 8388608 (-23);
               S754_finite true 8388608 (-23);
               S754_finite false 12582912 (-23);
               S754_finite false 16777215 104;
               S754_finite false 1 (-149)] eq_refl) as (Hb & Ht & _).
  split; [|split].
  - rewrite Hb. vm_compute. reflexivity.
  - rewrite Ht. vm_compute. reflexivity.
  - vm_compute. reflexivity.
Defined.

(** The same block run through the two conversions themselves. *)
Lemma capture_block_computed :
  let block :=
    [S754_finite false 8388608 (-24); S754_finite false 8388608 (-23);
     S754_finite true 8388608 (-23); S754_finite false 12582912 (-23);
     S754_finite false 16777215 104; S754_finite false 1 (-149)] in
  PCM.onaudioprocess_basic block = [16384; -32768; -32768; -16384; 0; 0] /\
  PCM.onaudioprocess_template block = [16384; -32768; -32768; -16384; 0; 0] /\
  PCM.toNumber (S754_finite false 8388608 (-23))
  = S754_finite false 4503599627370496 (-52) /\
  PCM.mul (PCM.toNumber (S754_finite false 8388608 (-23))) PCM.SF32768
  = PCM.SF32768 /\
  PCM.toFloat32 (PCM.mul (PCM.toNumber (S754_finite false 16777215 104))
                   PCM.SF32768)
  = S754_infinity false.
Proof. vm_compute. repeat split; reflexivity. Qed.

(** ** Lists, traces and plans *)

Lemma last_opt_cons {A : Type} (x : A) (l : list A) :
  last_opt (x :: l)
  = match last_opt l with Some y => Some y | None => Some x end.
Proof.
  destruct l as [|y l]; [reflexivity|].
  change (last_opt (x :: y :: l)) with (last_opt (y :: l)).
  generalize y; induction l as [|z l IH]; intros y0; [reflexivity|].
  change (last_opt (y0 :: z :: l)) with (last_opt (z :: l)).
  apply IH.
Qed.

Lemma last_opt_snoc {A : Type} (l : list A) (x : A) :
  last_opt (l ++ [x]) = Some x.
Proof.
  induction l as [|a l IH]; [reflexivity|].
  cbn [app]. rewrite last_opt_cons, IH. reflexivity.
Qed.

Lemma schedule_of_app (a b : list Effect) :
  schedule_of (a ++ b) = schedule_of a ++ schedule_of b.
Proof.
  induction a as [|e a IH]; [reflexivity|].
  destruct e; cbn; rewrite ?IH; reflexivity.
Qed.

Lemma in_stop_all (s : AudioBufferSourceNode) l :
  In s l -> In (SourceStop (node_id s)) (stop_all l).
Proof.
  intros H. unfold stop_all.
  apply (in_map (fun s => SourceStop (node_id s))), H.
Qed.



(** ** Playback scheduler, basic variant *)

Section BasicPlayback.
Import Basic.

(** The transcript part of [onmessage] leaves the scheduler alone. *)
Lemma basic_text_keeps_playback m st :
  let st' := handleTurnComplete m (handleTranscription m st) in
  sourcesRef st' = sourcesRef st /\ nextStartTime st' = nextStartTime st /\
  trace st' = trace st /\
  outputAudioContextRef st' = outputAudioContextRef st /\
  outputNodeRef st' = outputNodeRef st /\ fresh st' = fresh st.
Proof.
  unfold handleTurnComplete, handleTranscription.
  destruct (turnComplete m), (inputTranscription m), (outputTranscription m);
    cbn; auto 10.
Qed.

Lemma basic_handleAudio_ready now m st :
  playback_ready st = true ->
  exists st', handleAudio now m st = Normal st' /\
    playback_ready st' = true /\
    nextStartTime st'
    = cursor_after (nextStartTime st) (fragments [(now, m)]) /\
    schedule_of (trace st')
    = schedule_of (trace st)
      ++ back_to_back (nextStartTime st) (fragments [(now, m)]) /\
    (forall s, In s (sourcesRef st) -> In s (sourcesRef st')) /\
    (forall d, modelTurnAudio m = Some d ->
       In (mkSource (fresh st) d) (sourcesRef st')).
Proof.
  unfold playback_ready, handleAudio. cbn [fragments].
  destruct (modelTurnAudio m) as [d|].
  - destruct (outputAudioContextRef st) eqn:Hc; [|discriminate].
    destruct (outputNodeRef st) eqn:Hn; [|discriminate]. intros _.
    cbn. rewrite Hn. eexists; split; [reflexivity|]. cbn.
    rewrite Hc, Hn, schedule_of_app. repeat split; auto.
    + intros s Hs. apply in_or_app; now left.
    + intros d' [= <-]. apply in_or_app; right; now left.
  - intros H. exists st. rewrite H. cbn. rewrite !app_nil_r.
    repeat split; auto. discriminate.
Qed.



Lemma basic_onmessage_interrupted now m st :
  interrupted m = true ->
  (negb (carries_audio m) || playback_ready st)%bool = true ->
  exists st', onmessage now m st = Normal st' /\
    sourcesRef st' = [] /\ nextStartTime st' = 0%Q /\
    (forall s, In s (sourcesRef st) ->
       In (SourceStop (node_id s)) (trace st')) /\
    (forall d, modelTurnAudio m = Some d ->
       In (SourceStop (fresh st)) (trace st')).
Proof.
  intros Hi Hr. unfold onmessage.
  destruct (basic_text_keeps_playback m st) as (Hs & Hc & Ht & Ho & Hn & Hf).
  set (st1 := handleTurnComplete m (handleTranscription m st)) in *.
  assert (E : exists st2, handleAudio now m st1 = Normal st2 /\
     (forall s, In s (sourcesRef st) -> In s (sourcesRef st2)) /\
     (forall d, modelTurnAudio m = Some d ->
        In (mkSource (fresh st) d) (sourcesRef st2))).
  { apply orb_true_iff in Hr as [Hnone|Hr].
    - unfold carries_audio in Hnone. unfold handleAudio.
      destruct (modelTurnAudio m); [discriminate|].
      exists st1. split; [reflexivity|].
      split; [now rewrite Hs|discriminate].
    - assert (Hr1 : playback_ready st1 = true)
        by (unfold playback_ready in *; rewrite Ho, Hn; exact Hr).
      destruct (basic_handleAudio_ready now m st1 Hr1)
        as (st2 & E & _ & _ & _ & Hold & Hnew).
      exists st2. rewrite <- Hs, <- Hf. auto. }
  destruct E as (st2 & -> & Hold & Hnew).
  unfold handleInterrupted. rewrite Hi. eexists. split; [reflexivity|].
  cbn. repeat split.
  - intros s Hin. apply in_or_app. right. apply in_stop_all, Hold, Hin.
  - intros d Hd. apply in_or_app. right.
    apply (in_stop_all (mkSource (fresh st) d)), Hnew, Hd.
Qed.

(** A source that ends leaves the live set; the cursor stays. *)
Lemma basic_onended_removes id st :
  nextStartTime (onended id st) = nextStartTime st /\
  forall s, In s (sourcesRef (onended id st)) <->
            In s (sourcesRef st) /\ node_id s <> id.
Proof.
  split; [reflexivity|]. intros s. unfold onended.
  cbn [sourcesRef set_sourcesRef].
  rewrite filter_In, negb_true_iff, Nat.eqb_neq. reflexivity.
Qed.

End BasicPlayback.

(** ** Playback scheduler, template variant *)

Section TemplatePlayback.
Import Template.

Lemma template_text_keeps_playback m st :
  let st' := handleTurnComplete m (handleTranscription m st) in
  audioSources st' = audioSources st /\
  nextStartTime st' = nextStartTime st /\ trace st' = trace st /\
  outputAudioContext st' = outputAudioContext st /\ fresh st' = fresh st.
Proof.
  unfold handleTurnComplete, handleTranscription.
  destruct (inputTranscription m), (outputTranscription m), (turnComplete m);
    cbn;
    repeat match goal with
      | |- context [truthy ?s] => destruct (truthy s)
      end;
    cbn; auto.
Qed.

Lemma template_handleAudio_ready now m st :
  playback_ready st = true ->
  exists st', handleAudio now m st = Normal st' /\
    playback_ready st' = true /\
    nextStartTime st'
    = cursor_after (nextStartTime st) (fragments [(now, m)]) /\
    schedule_of (trace st')
    = schedule_of (trace st)
      ++ back_to_back (nextStartTime st) (fragments [(now, m)]) /\
    (forall s, In s (audioSources st) -> In s (audioSources st')) /\
    (forall d, modelTurnAudio m = Some d ->
       In (mkSource (fresh st) d) (audioSources st')).
Proof.
  unfold playback_ready, handleAudio. cbn [fragments].
  destruct (modelTurnAudio m) as [d|].
  - cbn [outputAudioContext set_isOrbListening].
    destruct (outputAudioContext st) eqn:Hc; [|discriminate]. intros _.
    eexists; split; [reflexivity|]. cbn. rewrite Hc, schedule_of_app.
    repeat split; auto.
    + intros s Hs. apply in_or_app; now left.
    + intros d' [= <-]. apply in_or_app; right; now left.
  - intros H. exists st. rewrite H. cbn. rewrite !app_nil_r.
    repeat split; auto. discriminate.
Qed.



Lemma template_onmessage_interrupted now m st :
  interrupted m = true ->
  (negb (carries_audio m) || playback_ready st)%bool = true ->
  exists st', onmessage now m st = Normal st' /\
    audioSources st' = [] /\ nextStartTime st' = 0%Q /\
    (forall s, In s (audioSources st) ->
       In (SourceStop (node_id s)) (trace st')) /\
    (forall d, modelTurnAudio m = Some d ->
       In (SourceStop (fresh st)) (trace st')).
Proof.
  intros Hi Hr. unfold onmessage.
  destruct (template_text_keeps_playback m st) as (Hs & Hc & Ht & Ho & Hf).
  set (st1 := handleTurnComplete m (handleTranscription m st)) in *.
  assert (E : exists st2, handleAudio now m st1 = Normal st2 /\
     (forall s, In s (audioSources st) -> In s (audioSources st2)) /\
     (forall d, modelTurnAudio m = Some d ->
        In (mkSource (fresh st) d) (audioSources st2))).
  { unfold carries_audio in Hr.
    destruct (modelTurnAudio m) as [d|] eqn:Ha.
    - cbn in Hr.
      assert (Hr1 : playback_ready st1 = true)
        by (unfold playback_ready in *; rewrite Ho; exact Hr).
      destruct (template_handleAudio_ready now m st1 Hr1)
        as (st2 & E & _ & _ & _ & Hold & Hnew).
      rewrite Ha in *. exists st2. rewrite <- Hs, <- Hf. auto.
    - unfold handleAudio. rewrite Ha. exists st1. split; [reflexivity|].
      split; [now rewrite Hs|discriminate]. }
  destruct E as (st2 & -> & Hold & Hnew).
  unfold handleInterrupted. rewrite Hi. eexists. split; [reflexivity|].
  cbn. repeat split.
  - intros s Hin. apply in_or_app. right. apply in_stop_all, Hold, Hin.
  - intros d Hd. apply in_or_app. right.
    apply (in_stop_all (mkSource (fresh st) d)), Hnew, Hd.
Qed.

(** A source that ends leaves the live set, and the listening indicator
    is set once the set is empty. *)
Lemma template_onended_removes id st :
  (forall s, In s (audioSources (onended id st)) <->
             In s (audioSources st) /\ node_id s <> id) /\
  (audioSources (onended id st) = [] ->
   isOrbListening (onended id st) = true).
Proof.
  unfold onended. cbn [audioSources set_audioSources].
  set (rest := List.filter _ (audioSources st)).
  assert (Hin : forall s, In s rest <->
                          In s (audioSources st) /\ node_id s <> id).
  { intros s. unfold rest.
    rewrite filter_In, negb_true_iff, Nat.eqb_neq. reflexivity. }
  destruct rest as [|s0 rest'] eqn:E; cbn; split; auto; discriminate.
Qed.

End TemplatePlayback.



(** C2. In both variants, handling a message with the interrupted flag,
    from any live set and any cursor, completes with an empty live set
    and a cursor of zero, [stop] having been requested on every source
    that was live and on the source of the fragment the same message may
    carry.  (A message that also carries audio needs the playback refs
    set, as they are while Connected.) *)
Theorem interruption_flushes_playback :
  (forall now m st,
     interrupted m = true ->
     (negb (carries_audio m) || Basic.playback_ready st)%bool = true ->
     exists st', Basic.onmessage now m st = Normal st' /\
       Basic.sourcesRef st' = [] /\ Basic.nextStartTime st' = 0%Q /\
       (forall s, In s (Basic.sourcesRef st) ->
          In (SourceStop (node_id s)) (Basic.trace st')) /\
       (forall d, modelTurnAudio m = Some d ->
          In (SourceStop (Basic.fresh st)) (Basic.trace st'))) /\
  (forall now m st,
     interrupted m = true ->
     (negb (carries_audio m) || Template.playback_ready st)%bool = true ->
     exists st', Template.onmessage now m st = Normal st' /\
       Template.audioSources st' = [] /\ Template.nextStartTime st' = 0%Q /\
       (forall s, In s (Template.audioSources st) ->
          In (SourceStop (node_id s)) (Template.trace st')) /\
       (forall d, modelTurnAudio m = Some d ->
          In (SourceStop (Template.fresh st)) (Template.trace st'))).
Proof.
  split; intros now m st Hi Hr.
  - exact (basic_onmessage_interrupted now m st Hi Hr).
  - exact (template_onmessage_interrupted now m st Hi Hr).
Qed.

(** Three live fragments and a cursor of 5.0, then an interruption. *)
Lemma interruption_flushes_playback_scenario :
  let evs := [(0, replyAudio 2); (0, replyAudio 2); (0, replyAudio 1)]%Q in
  let st := Basic.run evs Basic.connected in
  List.length (Basic.sourcesRef st) = 3%nat /\
  Basic.nextStartTime st == 5 /\
  exists st', Basic.onmessage 1 interruption st = Normal st' /\
    Basic.sourcesRef st' = [] /\ Basic.nextStartTime st' = 0%Q /\
    (forall s, In s (Basic.sourcesRef st) ->
       In (SourceStop (node_id s)) (Basic.trace st')).
Proof.
  cbv zeta. split; [reflexivity|]. split; [reflexivity|].
  destruct (proj1 interruption_flushes_playback 1%Q interruption
              (Basic.run [(0, replyAudio 2); (0, replyAudio 2);
                          (0, replyAudio 1)]%Q Basic.connected)
              eq_refl eq_refl) as (st' & E & Hs & Hc & Hstop & _).
  exists st'. auto.
Defined.

(** ** Transcript aggregator, basic variant *)

Section BasicTranscript.
Import Basic.

(** The audio and interruption blocks leave the transcript, the
    accumulators and the call state alone, however they end. *)
Lemma basic_playback_keeps_text now m st :
  let st' :=
    state_of
      match handleAudio now m st with
      | Throw s => Throw s
      | Normal s => Normal (handleInterrupted m s)
      end in
  transcript st' = transcript st /\
  currentInputTranscriptionRef st' = currentInputTranscriptionRef st /\
  currentOutputTranscriptionRef st' = currentOutputTranscriptionRef st /\
  callState st' = callState st.
Proof.
  unfold handleAudio, handleInterrupted.
  destruct (modelTurnAudio m), (outputAudioContextRef st) eqn:Hc,
    (outputNodeRef st) eqn:Hn, (interrupted m);
    cbn; rewrite ?Hn; cbn; auto.
Qed.

Lemma basic_upsert_open sp acc acc' base :
  upsert sp acc' (base ++ [mkEntry sp acc]) = base ++ [mkEntry sp acc'].
Proof.
  unfold upsert. rewrite last_opt_snoc. cbn [speaker].
  replace (Speaker_eqb sp sp) with true by (destruct sp; reflexivity).
  rewrite removelast_last. reflexivity.
Qed.

Lemma basic_upsert_new sp acc prev :
  last_speaker_is sp prev = false ->
  upsert sp acc prev = prev ++ [mkEntry sp acc].
Proof.
  unfold last_speaker_is, upsert.
  destruct (last_opt prev) as [e|]; [|reflexivity].
  intros ->. reflexivity.
Qed.

Lemma basic_partial_step sp now m t st :
  partial_of sp m = Some t -> turnComplete m = false ->
  let st' := state_of (onmessage now m st) in
  accumulator sp st' = accumulator sp st ++ t /\
  transcript st' = upsert sp (accumulator sp st ++ t) (transcript st).
Proof.
  intros Hp Ht st'. subst st'. unfold onmessage.
  destruct (basic_playback_keeps_text now m
              (handleTurnComplete m (handleTranscription m st)))
    as (-> & Hi & Ho & _).
  unfold handleTurnComplete in *. rewrite Ht in *.
  unfold handleTranscription in *.
  destruct sp; cbn [partial_of accumulator] in *.
  - rewrite Hi, Hp. cbn. auto.
  - rewrite Ho. destruct (inputTranscription m); [discriminate|].
    rewrite Hp. cbn. auto.
Qed.

Lemma basic_speaks_inv sp now m :
  speaks (partial_of sp) (now, m) = true ->
  exists t, partial_of sp m = Some t /\ turnComplete m = false.
Proof.
  unfold speaks. cbn [snd]. destruct (partial_of sp m) as [t|];
    [|discriminate].
  intros H. exists t. split; [reflexivity|]. now apply negb_true_iff.
Qed.

(** Once the last entry is the open entry of [sp], further partials of
    [sp] rewrite that entry with the grown accumulator. *)
Lemma basic_partials_open sp evs :
  forall st base,
    forallb (speaks (partial_of sp)) evs = true ->
    transcript st = base ++ [mkEntry sp (accumulator sp st)] ->
    transcript (run evs st)
    = base ++ [mkEntry sp (accumulator sp st ++ spoken (partial_of sp) evs)]
    /\ accumulator sp (run evs st)
       = accumulator sp st ++ spoken (partial_of sp) evs.
Proof.
  induction evs as [|[now m] evs IH]; intros st base Hf Hb.
  - cbn. rewrite app_nil_r. auto.
  - cbn [forallb] in Hf. apply andb_true_iff in Hf as [Hev Hf].
    destruct (basic_speaks_inv sp now m Hev) as (t & Hp & Ht).
    cbn [run spoken snd]. rewrite Hp.
    destruct (basic_partial_step sp now m t st Hp Ht) as [Ha Htr].
    rewrite Hb, basic_upsert_open, <- Ha in Htr.
    destruct (IH _ base Hf Htr) as [IH1 IH2].
    rewrite IH1, IH2, Ha, <- app_assoc. auto.
Qed.

Lemma basic_partials_fresh sp ev evs st :
  forallb (speaks (partial_of sp)) (ev :: evs) = true ->
  accumulator sp st = [] ->
  last_speaker_is sp (transcript st) = false ->
  transcript (run (ev :: evs) st)
  = transcript st ++ [mkEntry sp (spoken (partial_of sp) (ev :: evs))] /\
  accumulator sp (run (ev :: evs) st) = spoken (partial_of sp) (ev :: evs).
Proof.
  destruct ev as [now m]. intros Hf Hacc Hlast.
  cbn [forallb] in Hf. apply andb_true_iff in Hf as [Hev Hf].
  destruct (basic_speaks_inv sp now m Hev) as (t & Hp & Ht).
  cbn [run spoken snd]. rewrite Hp.
  destruct (basic_partial_step sp now m t st Hp Ht) as [Ha Htr].
  rewrite Hacc in Ha, Htr. cbn [app] in Ha, Htr.
  rewrite basic_upsert_new in Htr by exact Hlast. rewrite <- Ha in Htr.
  destruct (basic_partials_open sp evs _ _ Hf Htr) as [IH1 IH2].
  rewrite IH1, IH2, Ha. auto.
Qed.

(** A turn-complete signal empties both accumulators. *)
Lemma basic_turn_complete_resets now m st :
  turnComplete m = true ->
  let st' := state_of (onmessage now m st) in
  currentInputTranscriptionRef st' = [] /\
  currentOutputTranscriptionRef st' = [].
Proof.
  intros Ht. cbv zeta. unfold onmessage.
  destruct (basic_playback_keeps_text now m
              (handleTurnComplete m (handleTranscription m st)))
    as (_ & -> & -> & _).
  unfold handleTurnComplete. rewrite Ht. split; reflexivity.
Qed.

End BasicTranscript.

(** ** Transcript aggregator, template variant *)

Section TemplateTranscript.
Import Template.

Lemma template_playback_keeps_text now m st :
  let st' :=
    state_of
      match handleAudio now m st with
      | Throw s => Throw s
      | Normal s => Normal (handleInterrupted m s)
      end in
  transcript st' = transcript st /\
  currentInputTranscription st' = currentInputTranscription st /\
  currentOutputTranscription st' = currentOutputTranscription st /\
  callState st' = callState st.
Proof.
  unfold handleAudio, handleInterrupted.
  destruct (modelTurnAudio m), (outputAudioContext st) eqn:Hc, (interrupted m);
    cbn; rewrite ?Hc; cbn; auto.
Qed.

Lemma template_onmessage_text now m st :
  let st' := state_of (onmessage now m st) in
  let accIn :=
    with_partial (currentInputTranscription st) (inputTranscription m) in
  let accOut :=
    with_partial (currentOutputTranscription st) (outputTranscription m) in
  transcript st'
  = transcript st
    ++ (if turnComplete m then finalized User accIn ++ finalized Agent accOut
        else []) /\
  currentInputTranscription st' = (if turnComplete m then [] else accIn) /\
  currentOutputTranscription st' = (if turnComplete m then [] else accOut).
Proof.
  cbv zeta. unfold onmessage.
  destruct (template_playback_keeps_text now m
              (handleTurnComplete m (handleTranscription m st)))
    as (-> & -> & -> & _).
  unfold handleTurnComplete, handleTranscription, finalized, with_partial.
  destruct (inputTranscription m), (outputTranscription m), (turnComplete m);
    cbn -[trim truthy];
    repeat match goal with
      | |- context [truthy ?s] => destruct (truthy s); cbn -[trim truthy]
      end;
    rewrite <- ?app_assoc, ?app_nil_r; auto.
Qed.


(** Partials only grow the accumulator of their speaker. *)
Lemma template_partials sp evs :
  forall st,
    forallb (speaks (partial_of sp)) evs = true ->
    transcript (run evs st) = transcript st /\
    accumulator sp (run evs st)
    = accumulator sp st ++ spoken (partial_of sp) evs.
Proof.
  induction evs as [|[now m] evs IH]; intros st Hf.
  - cbn. rewrite app_nil_r. auto.
  - cbn [forallb] in Hf. apply andb_true_iff in Hf as [Hev Hf].
    unfold speaks in Hev. cbn [snd] in Hev.
    destruct (partial_of sp m) as [t|] eqn:Hp; [|discriminate].
    apply negb_true_iff in Hev.
    destruct (template_onmessage_text now m st) as (Htr & Hin & Hout).
    rewrite Hev in Htr, Hin, Hout. rewrite app_nil_r in Htr.
    cbn [run spoken snd]. rewrite Hp.
    destruct (IH (state_of (onmessage now m st)) Hf) as [IH1 IH2].
    rewrite IH1, IH2, Htr. split; [reflexivity|].
    destruct sp; cbn [partial_of accumulator] in *; try discriminate.
    + rewrite Hin, Hp. cbn [with_partial]. now rewrite app_assoc.
    + rewrite Hout, Hp. cbn [with_partial]. now rewrite app_assoc.
Qed.

End TemplateTranscript.

(** C3 as stated does not hold of the template variant: after the user
    partials "Hel" and "lo" of an open turn the transcript has no entry
    "Hello" of the user; it is as it was. *)
Lemma partials_build_one_entry_template_fails :
  let evs := [(0%Q, userSays "Hel"); (0%Q, userSays "lo")] in
  forallb (speaks (Template.partial_of Template.User)) evs = true /\
  Template.transcript (Template.run evs Template.connected)
  = Template.transcript Template.connected /\
  ~ In (Template.mkEntry Template.User (str "Hello"))
      (Template.transcript (Template.run evs Template.connected)).
Proof.
  cbv zeta. split; [reflexivity|]. split; [vm_compute; reflexivity|].
  vm_compute. intros [H|[H|[]]]; discriminate H.
Qed.

(** C3, amended. Basic variant: for a non-empty sequence of partial-text
    events of one speaker, none with a turn-complete signal, handled from
    an empty accumulator of that speaker while the last transcript entry
    is not that speaker's, the transcript grows by exactly one entry, the
    speaker's, whose text is the concatenation of the event texts in
    order.  Template variant: such a sequence leaves the transcript as it
    is and appends the texts to the speaker's accumulator. *)
Theorem partials_build_one_entry :
  (forall sp ev evs st,
     forallb (speaks (Basic.partial_of sp)) (ev :: evs) = true ->
     Basic.accumulator sp st = [] ->
     Basic.last_speaker_is sp (Basic.transcript st) = false ->
     Basic.transcript (Basic.run (ev :: evs) st)
     = Basic.transcript st
       ++ [Basic.mkEntry sp (spoken (Basic.partial_of sp) (ev :: evs))]) /\
  (forall sp evs st,
     forallb (speaks (Template.partial_of sp)) evs = true ->
     Template.transcript (Template.run evs st) = Template.transcript st /\
     Template.accumulator sp (Template.run evs st)
     = Template.accumulator sp st ++ spoken (Template.partial_of sp) evs).
Proof.
  split.
  - intros sp ev evs st Hf Ha Hl.
    exact (proj1 (basic_partials_fresh sp ev evs st Hf Ha Hl)).
  - intros sp evs st Hf. exact (template_partials sp evs st Hf).
Qed.

(** "Hel" then "lo" from the user on a freshly connected basic call: one
    entry, "Hello". *)
Lemma partials_build_one_entry_hello :
  Basic.transcript
    (Basic.run [(0%Q, userSays "Hel"); (0%Q, userSays "lo")] Basic.connected)
  = [Basic.mkEntry Basic.User (str "Hello")].
Proof.
  exact (proj1 partials_build_one_entry Basic.User
           (0%Q, userSays "Hel") [(0%Q, userSays "lo")] Basic.connected
           eq_refl eq_refl eq_refl).
Defined.


(** A turn of the template variant: padded user text, agent text, then
    the signal. *)
Lemma template_turn_example :
  Template.transcript
    (Template.run
       [(0%Q, userSays "  Hi "); (0%Q, agentSays "Hello"); (0%Q, agentSays " ");
        (0%Q, turnCompleted)] Template.connected)
  = Template.transcript Template.connected
    ++ [Template.mkEntry Template.User (str "Hi");
        Template.mkEntry Template.Agent (str "Hello")].
Proof. vm_compute. reflexivity. Qed.

(** C4. The basic variant at the failing input: the agent's finalized
    entry "Hello." is replaced by the text of the agent's next turn. *)
Lemma finalized_entry_overwritten :
  let evs :=
    [(0%Q, agentSays "Hello."); (0%Q, turnCompleted);
     (0%Q, agentSays "Are you there?")] in
  Basic.transcript (Basic.run evs Basic.connected)
  = [Basic.mkEntry Basic.Agent (str "Are you there?")] /\
  Basic.transcript (Basic.run (firstn 2 evs) Basic.connected)
  = [Basic.mkEntry Basic.Agent (str "Hello.")].
Proof. split; vm_compute; reflexivity. Qed.

(** ** Call life cycle, basic variant *)

Section BasicLifeCycle.
Import Basic.

Ltac basic_fields st :=
  destruct st as
    [sd cs tr ol ses ictx octx strm sp gain srcs cur ci co tm trc fr];
  cbv -[app stop_all opt_request]; rewrite ?app_nil_r, <- ?app_assoc.


(** [cleanup] clears five refs and the live set, makes the requests of
    [released], and touches nothing else. *)
Lemma basic_cleanup_effect st :
  let st' := cleanup st in
  resources st' = (None, None, None, None, None, [], trace st ++ released st)
  /\ nextStartTime st' = nextStartTime st /\ callState st' = callState st /\
  transcript st' = transcript st /\ timers st' = timers st /\
  isOrbListening st' = isOrbListening st.
Proof.
  basic_fields st; auto 10.
Qed.





(** The [endCall] that [onerror] holds was created by the render in which
    [startCall] passed its guard, where the call state was Idle: it does
    nothing. *)
Lemma basic_onerror_stale st :
  onerror (mkRender Idle) st = set_isOrbListening false st.
Proof. reflexivity. Qed.


(** Whatever step of the setup fails, the call state is back to Idle. *)
Lemma basic_startCall_failure r env st :
  seen_callState r = Idle ->
  (micGranted env && inputContextCreated env && outputContextCreated env
   && handshakeDone env)%bool = false ->
  callState (startCall r env st) = Idle.
Proof.
  unfold startCall, startCall_catch, alloc. intros ->.
  destruct (micGranted env), (inputContextCreated env),
    (outputContextCreated env), (handshakeDone env); cbn; congruence.
Qed.

(** [startCall] outside Idle does nothing. *)
Lemma basic_startCall_guard r env st :
  CallState_eqb (seen_callState r) Idle = false -> startCall r env st = st.
Proof. unfold startCall. intros ->. reflexivity. Qed.

End BasicLifeCycle.

(** ** Call life cycle, template variant *)

Section TemplateLifeCycle.
Import Template.






End TemplateLifeCycle.









(** C8. The basic variant at the failing inputs: the handshake is
    rejected after the microphone and both contexts were obtained, or the
    input context cannot be built after the microphone was obtained.  The
    call state is Idle again, but the stream and the contexts stay in
    their refs and nothing was asked of them. *)
Lemma setup_failure_keeps_resources :
  let handshake_rejected :=
    Basic.startCall (Basic.render Basic.initial)
      (Basic.mkSetup true true true false) Basic.initial in
  let context_failed :=
    Basic.startCall (Basic.render Basic.initial)
      (Basic.mkSetup true false false false) Basic.initial in
  (Basic.callState handshake_rejected = Idle /\
   Basic.streamRef handshake_rejected = Some 0%nat /\
   Basic.inputAudioContextRef handshake_rejected = Some 1%nat /\
   Basic.outputAudioContextRef handshake_rejected = Some 2%nat /\
   Basic.trace handshake_rejected = []) /\
  (Basic.callState context_failed = Idle /\
   Basic.streamRef context_failed = Some 0%nat /\
   Basic.trace context_failed = []).
Proof. vm_compute. repeat split; reflexivity. Qed.
